(** * Access control, sharing and search of the notes backend

    A shallow embedding of the Convex functions of [convex/notes.ts]
    (queries [getSharedNotes], [getNote], [searchNotes]; mutations
    [createNote], [updateNote], [deleteNote], [shareNote]) over the tables
    declared in [convex/schema.ts].

    The document store is an explicit value [DB].  A query is a function
    that reads it and may throw; a mutation also threads the store, and a
    throw hands back the store as it stands at the throw.  The ambient
    identity [getAuthUserId(ctx)] and the clock [Date.now()] are explicit
    arguments. *)

From Stdlib Require Import List String Ascii ZArith NArith Bool Arith Lia.
Import ListNotations.

Set Implicit Arguments.

(** ** JavaScript strings *)

(** A string is the sequence of its UTF-16 code units. *)
Definition jsstring := list N.

Definition str (s : string) : jsstring :=
  map N_of_ascii (list_ascii_of_string s).

Fixpoint jsstring_eqb (a b : jsstring) : bool :=
  match a, b with
  | [], [] => true
  | x :: a', y :: b' => N.eqb x y && jsstring_eqb a' b'
  | _, _ => false
  end.

(** WhiteSpace and LineTerminator code points of ECMAScript, the ones
    [String.prototype.trim] strips. *)
Definition isTrimSpace (c : N) : bool :=
  (N.leb 9 c && N.leb c 13) || N.eqb c 32 || N.eqb c 160 || N.eqb c 5760
  || (N.leb 8192 c && N.leb c 8202) || N.eqb c 8232 || N.eqb c 8233
  || N.eqb c 8239 || N.eqb c 8287 || N.eqb c 12288 || N.eqb c 65279.

Fixpoint dropWhile {A} (p : A -> bool) (l : list A) : list A :=
  match l with
  | [] => []
  | x :: l' => if p x then dropWhile p l' else l
  end.

Definition trim (s : jsstring) : jsstring :=
  rev (dropWhile isTrimSpace (rev (dropWhile isTrimSpace s))).

(** Truthiness of a string value: the empty string is falsy. *)
Definition truthy (s : jsstring) : bool :=
  match s with [] => false | _ :: _ => true end.

(** [a || b] where [a] may be [undefined]: [undefined] and the empty
    string fall through to [b]. *)
Definition js_or (a : option jsstring) (b : jsstring) : jsstring :=
  match a with
  | Some s => if truthy s then s else b
  | None => b
  end.

(** [a ?? b]. *)
Definition nullish {A} (a : option A) (b : A) : A :=
  match a with Some x => x | None => b end.

(** ** Tables of [convex/schema.ts] *)

(** Document identifiers are opaque values allotted by the store; every
    one of them is truthy. *)
Definition Id := nat.

Definition optId_eqb (a : option Id) (b : Id) : bool :=
  match a with Some x => Nat.eqb x b | None => false end.

Inductive Permission := read | write.

Definition Permission_eqb (a b : Permission) : bool :=
  match a, b with
  | read, read | write, write => true
  | _, _ => false
  end.

Module User.
(** The fields of the [users] table of [authTables] that the functions
    read. *)
Record t := mk { _id : Id; name : option jsstring; email : option jsstring }.
End User.

Module Note.
Record t := mk {
  _id : Id;
  title : jsstring;
  content : jsstring;
  isPublic : bool;
  authorId : Id;
  lastEditedBy : option Id;
  lastEditedAt : Z
}.
End Note.

Module Share.
Record t := mk {
  _id : Id;
  noteId : Id;
  sharedWithId : Id;
  permission : Permission;
  sharedBy : Id
}.
End Share.

(** The store: each table in creation order, and the next identifier the
    store will allot. *)
Record DB := mkDB {
  users : list User.t;
  notes : list Note.t;
  noteShares : list Share.t;
  nextId : Id
}.

Definition emptyDB : DB := mkDB [] [] [] 0.

(** ** Errors *)

(** One constructor per [throw new Error(...)] of [notes.ts], plus the two
    failures of the store's own calls: [.unique()] on more than one
    document, and [patch]/[delete] of a missing document. *)
Inductive Error :=
| NotAuthenticated        (* "Not authenticated" *)
| NoteNotFound            (* "Note not found" *)
| NotAuthorizedEdit       (* "Not authorized to edit this note" *)
| NotAuthorizedDelete     (* "Not authorized to delete this note" *)
| NotAuthorizedShare      (* "Not authorized to share this note" *)
| UserNotFound            (* "User not found" *)
| CannotShareWithYourself (* "Cannot share note with yourself" *)
| NotUnique
| DocMissing.

Inductive ErrorKind :=
| AuthenticationError | AuthorizationError | NotFoundError | ValidationError
| StoreError.

Definition kind (e : Error) : ErrorKind :=
  match e with
  | NotAuthenticated => AuthenticationError
  | NotAuthorizedEdit | NotAuthorizedDelete | NotAuthorizedShare =>
      AuthorizationError
  | NoteNotFound | UserNotFound => NotFoundError
  | CannotShareWithYourself => ValidationError
  | NotUnique | DocMissing => StoreError
  end.

Inductive result (A : Type) :=
| Ok (a : A)
| Err (e : Error).
Arguments Err {A} e.

(** ** Queries and mutations *)

Definition Query (A : Type) := DB -> result A.
Definition Mutation (A : Type) := DB -> result A * DB.

Class Monad (m : Type -> Type) := {
  ret : forall A, A -> m A;
  bind : forall A B, m A -> (A -> m B) -> m B;
  throw : forall A, Error -> m A
}.
Arguments ret {m _ A} _.
Arguments bind {m _ A B} _ _.
Arguments throw {m _ A} _.

Definition bindQ A B (c : Query A) (k : A -> Query B) : Query B :=
  fun db => match c db with Ok a => k a db | Err e => Err e end.

Definition bindM A B (c : Mutation A) (k : A -> Mutation B) : Mutation B :=
  fun db => match c db with
            | (Ok a, db') => k a db'
            | (Err e, db') => (Err e, db')
            end.

#[export] Instance Query_Monad : Monad Query := {
  ret := fun A a _ => Ok a;
  bind := bindQ;
  throw := fun A e _ => Err e
}.

#[export] Instance Mutation_Monad : Monad Mutation := {
  ret := fun A a db => (Ok a, db);
  bind := bindM;
  throw := fun A e db => (Err e, db)
}.

Declare Scope convex_scope.
Delimit Scope convex_scope with convex.
Notation "x <- c ;; k" := (bind c (fun x => k))
  (at level 100, c at next level, right associativity) : convex_scope.
Notation "c ;;; k" := (bind c (fun _ => k))
  (at level 100, right associativity) : convex_scope.
Open Scope convex_scope.

(** A mutation may run any read of a query against the current store. *)
Definition runQuery A (q : Query A) : Mutation A := fun db => (q db, db).

(** *** Reads of the store *)

Definition find_by {A} (id_of : A -> Id) (i : Id) (l : list A) : option A :=
  find (fun d => Nat.eqb (id_of d) i) l.

(** [ctx.db.get(id)] *)
Definition get_user (i : Id) : Query (option User.t) :=
  fun db => Ok (find_by User._id i (users db)).
Definition get_note (i : Id) : Query (option Note.t) :=
  fun db => Ok (find_by Note._id i (notes db)).

(** [.unique()]: [null] on no document, the document when there is one,
    a throw on more than one. *)
Definition unique {A} (l : list A) : Query (option A) :=
  match l with
  | [] => ret None
  | [x] => ret (Some x)
  | _ :: _ :: _ => throw NotUnique
  end.

(** [withIndex("by_note_and_user", q => q.eq("noteId", n).eq("sharedWithId", u))] *)
Definition by_note_and_user (n u : Id) (db : DB) : list Share.t :=
  filter (fun s => Nat.eqb (Share.noteId s) n && Nat.eqb (Share.sharedWithId s) u)
         (noteShares db).

(** [withIndex("by_note", q => q.eq("noteId", n))] *)
Definition by_note (n : Id) (db : DB) : list Share.t :=
  filter (fun s => Nat.eqb (Share.noteId s) n) (noteShares db).

(** [withIndex("by_user", q => q.eq("sharedWithId", u))] *)
Definition by_user (u : Id) (db : DB) : list Share.t :=
  filter (fun s => Nat.eqb (Share.sharedWithId s) u) (noteShares db).

(** [withIndex("email", q => q.eq("email", e))] on [users] *)
Definition by_email (e : jsstring) (db : DB) : list User.t :=
  filter (fun u => match User.email u with
                   | Some e' => jsstring_eqb e' e
                   | None => false
                   end) (users db).

(** *** Writes of the store *)

Definition has_id {A} (id_of : A -> Id) (i : Id) (l : list A) : bool :=
  existsb (fun d => Nat.eqb (id_of d) i) l.

(** In a store that keeps its invariants ([WF] below) an identifier names
    one document; [patch_by] and [delete_by] act on every document that
    carries it. *)
Definition patch_by {A} (id_of : A -> Id) (i : Id) (f : A -> A) (l : list A)
  : list A :=
  map (fun d => if Nat.eqb (id_of d) i then f d else d) l.

Definition delete_by {A} (id_of : A -> Id) (i : Id) (l : list A) : list A :=
  filter (fun d => negb (Nat.eqb (id_of d) i)) l.

(** [ctx.db.insert("notes", {title, content, isPublic, authorId,
    lastEditedAt})]: the store allots the identifier and returns it;
    [lastEditedBy] is absent from the new document. *)
Definition insert_note (title content : jsstring) (isPublic : bool)
    (authorId : Id) (lastEditedAt : Z) : Mutation Id :=
  fun db =>
    let i := nextId db in
    (Ok i,
     mkDB (users db)
          (notes db ++ [Note.mk i title content isPublic authorId None lastEditedAt])
          (noteShares db) (S i)).

(** [ctx.db.insert("noteShares", {noteId, sharedWithId, permission, sharedBy})] *)
Definition insert_share (noteId sharedWithId : Id) (permission : Permission)
    (sharedBy : Id) : Mutation Id :=
  fun db =>
    let i := nextId db in
    (Ok i,
     mkDB (users db) (notes db)
          (noteShares db ++ [Share.mk i noteId sharedWithId permission sharedBy])
          (S i)).

(** The [updates] object of [updateNote]: a field that is not set leaves
    the document's field as it is. *)
Record NoteUpdates := mkUpdates {
  upd_lastEditedBy : option Id;
  upd_lastEditedAt : option Z;
  upd_title : option jsstring;
  upd_content : option jsstring;
  upd_isPublic : option bool
}.

(** [updates.title = t], [updates.content = c], [updates.isPublic = b] *)
Definition set_title (t : jsstring) (u : NoteUpdates) : NoteUpdates :=
  mkUpdates (upd_lastEditedBy u) (upd_lastEditedAt u) (Some t) (upd_content u)
            (upd_isPublic u).
Definition set_content (c : jsstring) (u : NoteUpdates) : NoteUpdates :=
  mkUpdates (upd_lastEditedBy u) (upd_lastEditedAt u) (upd_title u) (Some c)
            (upd_isPublic u).
Definition set_isPublic (b : bool) (u : NoteUpdates) : NoteUpdates :=
  mkUpdates (upd_lastEditedBy u) (upd_lastEditedAt u) (upd_title u)
            (upd_content u) (Some b).

Definition apply_updates (u : NoteUpdates) (n : Note.t) : Note.t :=
  Note.mk (Note._id n)
          (nullish (upd_title u) (Note.title n))
          (nullish (upd_content u) (Note.content n))
          (nullish (upd_isPublic u) (Note.isPublic n))
          (Note.authorId n)
          (match upd_lastEditedBy u with
           | Some e => Some e
           | None => Note.lastEditedBy n
           end)
          (nullish (upd_lastEditedAt u) (Note.lastEditedAt n)).

(** [ctx.db.patch(noteId, updates)] *)
Definition patch_note (i : Id) (u : NoteUpdates) : Mutation unit :=
  fun db =>
    if has_id Note._id i (notes db) then
      (Ok tt,
       mkDB (users db) (patch_by Note._id i (apply_updates u) (notes db))
            (noteShares db) (nextId db))
    else (Err DocMissing, db).

Definition set_permission (p : Permission) (s : Share.t) : Share.t :=
  Share.mk (Share._id s) (Share.noteId s) (Share.sharedWithId s) p
           (Share.sharedBy s).

(** [ctx.db.patch(shareId, {permission})] *)
Definition patch_share (i : Id) (p : Permission) : Mutation unit :=
  fun db =>
    if has_id Share._id i (noteShares db) then
      (Ok tt,
       mkDB (users db) (notes db)
            (patch_by Share._id i (set_permission p) (noteShares db))
            (nextId db))
    else (Err DocMissing, db).

(** [ctx.db.delete(id)] *)
Definition delete_share (i : Id) : Mutation unit :=
  fun db =>
    if has_id Share._id i (noteShares db) then
      (Ok tt,
       mkDB (users db) (notes db) (delete_by Share._id i (noteShares db))
            (nextId db))
    else (Err DocMissing, db).

Definition delete_note (i : Id) : Mutation unit :=
  fun db =>
    if has_id Note._id i (notes db) then
      (Ok tt,
       mkDB (users db) (delete_by Note._id i (notes db)) (noteShares db)
            (nextId db))
    else (Err DocMissing, db).

(** *** Control *)

(** [Promise.all(l.map(async x => f x))] *)
Fixpoint mapQ {A B} (f : A -> Query B) (l : list A) : Query (list B) :=
  match l with
  | [] => ret []
  | x :: l' => y <- f x ;; ys <- mapQ f l' ;; ret (y :: ys)
  end.

(** [for (const x of l) { await f x }] *)
Fixpoint forM {A} (f : A -> Mutation unit) (l : list A) : Mutation unit :=
  match l with
  | [] => ret tt
  | x :: l' => f x ;;; forM f l'
  end.

(** [Array.prototype.findIndex]: [-1] when no element satisfies [p]. *)
Fixpoint findIndex_from {A} (p : A -> bool) (l : list A) (i : Z) : Z :=
  match l with
  | [] => (-1)%Z
  | x :: l' => if p x then i else findIndex_from p l' (i + 1)%Z
  end.

Definition findIndex {A} (p : A -> bool) (l : list A) : Z :=
  findIndex_from p l 0.

(** [Array.prototype.filter] with the callback's [index] and [self]
    arguments. *)
Fixpoint filter_from {A} (p : A -> Z -> bool) (l : list A) (i : Z) : list A :=
  match l with
  | [] => []
  | x :: l' =>
      if p x i then x :: filter_from p l' (i + 1)%Z
      else filter_from p l' (i + 1)%Z
  end.

Definition filter_index {A} (p : A -> Z -> list A -> bool) (self : list A)
  : list A :=
  filter_from (fun x i => p x i self) self 0.

(** ** The functions of [notes.ts] *)

(** What the queries return: the note's fields spread, plus the derived
    ones. *)
Module NoteWithAuthor.
Record t := mk { note : Note.t; authorName : jsstring }.
End NoteWithAuthor.

Module NoteWithAccess.
Record t := mk { note : Note.t; authorName : jsstring; canEdit : bool }.
End NoteWithAccess.

Module NoteWithShare.
Record t := mk { note : Note.t; authorName : jsstring; permission : Permission }.
End NoteWithShare.

(** [a?.f] *)
Definition opt_chain {A B} (a : option A) (f : A -> option B) : option B :=
  match a with Some x => f x | None => None end.

(** [author?.name || author?.email || dflt], the [||] re-associated to the
    right, which yields the same value. *)
Definition authorName_or (author : option User.t) (dflt : jsstring) : jsstring :=
  js_or (opt_chain author User.name) (js_or (opt_chain author User.email) dflt).

(** An indexed query closed by [.unique()]. *)
Definition query_unique {A} (idx : DB -> list A) : Query (option A) :=
  fun db => unique (idx db) db.

(** [.collect()] *)
Definition collect {A} (idx : DB -> list A) : Query (list A) :=
  fun db => Ok (idx db).

Definition getSharedNotes (userId : option Id) : Query (list NoteWithShare.t) :=
  match userId with
  | None => ret []
  | Some userId =>
      shares <- collect (by_user userId) ;;
      notes <- mapQ (fun share =>
                 note <- get_note (Share.noteId share) ;;
                 match note with
                 | None => ret None
                 | Some note =>
                     author <- get_user (Note.authorId note) ;;
                     ret (Some (NoteWithShare.mk note
                                  (authorName_or author (str "Unknown"))
                                  (Share.permission share)))
                 end) shares ;;
      ret (flat_map (fun o => match o with Some x => [x] | None => [] end) notes)
  end.

Definition getNote (userId : option Id) (noteId : Id)
  : Query (option NoteWithAccess.t) :=
  note <- get_note noteId ;;
  match note with
  | None => ret None
  | Some note =>
      if Note.isPublic note then
        author <- get_user (Note.authorId note) ;;
        ret (Some (NoteWithAccess.mk note
                     (authorName_or author (str "Anonymous"))
                     (optId_eqb userId (Note.authorId note))))
      else
        match userId with
        | None => ret None
        | Some userId =>
            if Nat.eqb (Note.authorId note) userId then
              ret (Some (NoteWithAccess.mk note (str "You") true))
            else
              share <- query_unique (by_note_and_user noteId userId) ;;
              match share with
              | Some share =>
                  author <- get_user (Note.authorId note) ;;
                  ret (Some (NoteWithAccess.mk note
                               (authorName_or author (str "Unknown"))
                               (Permission_eqb (Share.permission share) write)))
              | None => ret None
              end
        end
  end.

Definition createNote (userId : option Id) (now : Z) (title : jsstring)
    (content : option jsstring) (isPublic : option bool) : Mutation Id :=
  match userId with
  | None => throw NotAuthenticated
  | Some userId =>
      noteId <- insert_note title (js_or content []) (nullish isPublic true)
                            userId now ;;
      ret noteId
  end.

Definition updateNote (userId : option Id) (now : Z) (noteId : Id)
    (title content : option jsstring) (isPublic : option bool)
  : Mutation unit :=
  match userId with
  | None => throw NotAuthenticated
  | Some userId =>
      note <- runQuery (get_note noteId) ;;
      match note with
      | None => throw NoteNotFound
      | Some note =>
          canEdit <-
            (if Nat.eqb (Note.authorId note) userId then ret true
             else
               share <- runQuery (query_unique (by_note_and_user noteId userId)) ;;
               ret (match share with
                    | Some share => Permission_eqb (Share.permission share) write
                    | None => false
                    end)) ;;
          if negb canEdit then throw NotAuthorizedEdit
          else
            let updates := mkUpdates (Some userId) (Some now) None None None in
            let updates :=
              match title with
              | Some t => set_title t updates
              | None => updates
              end in
            let updates :=
              match content with
              | Some c => set_content c updates
              | None => updates
              end in
            let updates :=
              match isPublic with
              | Some b =>
                  if Nat.eqb (Note.authorId note) userId then
                    set_isPublic b updates
                  else updates
              | None => updates
              end in
            patch_note noteId updates
      end
  end.

Definition deleteNote (userId : option Id) (noteId : Id) : Mutation unit :=
  match userId with
  | None => throw NotAuthenticated
  | Some userId =>
      note <- runQuery (get_note noteId) ;;
      match note with
      | None => throw NoteNotFound
      | Some note =>
          if negb (Nat.eqb (Note.authorId note) userId) then
            throw NotAuthorizedDelete
          else
            shares <- runQuery (collect (by_note noteId)) ;;
            (forM (fun share => delete_share (Share._id share)) shares ;;;
             delete_note noteId)
      end
  end.

Definition shareNote (userId : option Id) (noteId : Id) (email : jsstring)
    (permission : Permission) : Mutation unit :=
  match userId with
  | None => throw NotAuthenticated
  | Some userId =>
      note <- runQuery (get_note noteId) ;;
      match note with
      | None => throw NoteNotFound
      | Some note =>
          if negb (Nat.eqb (Note.authorId note) userId) then
            throw NotAuthorizedShare
          else
            userToShareWith <- runQuery (query_unique (by_email email)) ;;
            match userToShareWith with
            | None => throw UserNotFound
            | Some userToShareWith =>
                if Nat.eqb (User._id userToShareWith) userId then
                  throw CannotShareWithYourself
                else
                  existingShare <-
                    runQuery (query_unique
                                (by_note_and_user noteId
                                   (User._id userToShareWith))) ;;
                  match existingShare with
                  | Some existingShare =>
                      patch_share (Share._id existingShare) permission
                  | None =>
                      insert_share noteId (User._id userToShareWith) permission
                                   userId ;;;
                      ret tt
                  end
            end
      end
  end.

(** *** Search *)

(** The equality filters the search index [search_content] declares
    ([filterFields: ["isPublic", "authorId"]]). *)
Inductive SearchFilter :=
| EqIsPublic (b : bool)
| EqAuthorId (u : Id).

Definition filter_holds (f : SearchFilter) (n : Note.t) : bool :=
  match f with
  | EqIsPublic b => Bool.eqb (Note.isPublic n) b
  | EqAuthorId u => Nat.eqb (Note.authorId n) u
  end.

Section Search.

(** The store's text index:
    [withSearchIndex("search_content", q => q.search("content", text).eq(field, value))]
    gives the matching notes of the table in the index's own order of
    relevance. *)
Variable search_content : jsstring -> SearchFilter -> list Note.t -> list Note.t.

Definition search (text : jsstring) (f : SearchFilter) : Query (list Note.t) :=
  fun db => Ok (search_content text f (notes db)).

(** [.take(n)] *)
Definition take {A} (n : nat) (q : Query (list A)) : Query (list A) :=
  l <- q ;; ret (firstn n l).

Definition searchNotes (userId : option Id) (query : jsstring)
  : Query (list NoteWithAuthor.t) :=
  if negb (truthy (trim query)) then ret []
  else
    publicResults <- take 10 (search query (EqIsPublic true)) ;;
    match userId with
    | None =>
        resultsWithAuthors <-
          mapQ (fun note =>
                  author <- get_user (Note.authorId note) ;;
                  ret (NoteWithAuthor.mk note
                         (authorName_or author (str "Anonymous"))))
               publicResults ;;
        ret resultsWithAuthors
    | Some userId =>
        userResults <- take 10 (search query (EqAuthorId userId)) ;;
        let allResults := publicResults ++ userResults in
        let uniqueResults :=
          filter_index
            (fun note index self =>
               Z.eqb index
                 (findIndex (fun n => Nat.eqb (Note._id n) (Note._id note)) self))
            allResults in
        resultsWithAuthors <-
          mapQ (fun note =>
                  author <- get_user (Note.authorId note) ;;
                  ret (NoteWithAuthor.mk note
                         (if Nat.eqb (Note.authorId note) userId
                          then str "You"
                          else authorName_or author (str "Anonymous"))))
               uniqueResults ;;
        ret (firstn 10 resultsWithAuthors)
    end.

(** The public matches and the requester's own matches, each capped at
    ten by [.take(10)]. *)
Definition publicResults (Q : jsstring) (db : DB) : list Note.t :=
  firstn 10 (search_content Q (EqIsPublic true) (notes db)).
Definition userResults (R : Id) (Q : jsstring) (db : DB) : list Note.t :=
  firstn 10 (search_content Q (EqAuthorId R) (notes db)).

End Search.

(** ** Notions the statements use *)

(** The [canEdit] the access resolver ([getNote]) reports for a signed-in
    requester; no result counts as no grant. *)
Definition resolver_canEdit (requester noteId : Id) (db : DB) : bool :=
  match getNote (Some requester) noteId db with
  | Ok (Some v) => NoteWithAccess.canEdit v
  | _ => false
  end.

(** The requester holds a share on the note with [write] permission. *)
Definition has_write_share (requester noteId : Id) (db : DB) : bool :=
  existsb (fun s => Permission_eqb (Share.permission s) write)
          (by_note_and_user noteId requester db).

(** Removal of duplicates by note identity, the first occurrence kept;
    [seen] holds the identifiers already passed. *)
Fixpoint dedup_first (seen : list Id) (l : list Note.t) : list Note.t :=
  match l with
  | [] => []
  | n :: l' =>
      if existsb (Nat.eqb (Note._id n)) seen then dedup_first seen l'
      else n :: dedup_first (Note._id n :: seen) l'
  end.

(** The author label of a search result for a signed-in requester. *)
Definition search_label (requester : Id) (db : DB) (n : Note.t)
  : NoteWithAuthor.t :=
  NoteWithAuthor.mk n
    (if Nat.eqb (Note.authorId n) requester then str "You"
     else authorName_or (find_by User._id (Note.authorId n) (users db))
                        (str "Anonymous")).

(** [i] is one of [ids]. *)
Definition id_in (ids : list Id) (i : Id) : bool := existsb (Nat.eqb i) ids.

(** Invariants of the store: identifiers are allotted once and below
    [nextId], and a (note, user) pair has at most one share. *)
Record WF (db : DB) : Prop := mkWF {
  wf_note_fresh : Forall (fun n => Note._id n < nextId db) (notes db);
  wf_share_fresh : Forall (fun s => Share._id s < nextId db) (noteShares db);
  wf_note_ids : NoDup (map Note._id (notes db));
  wf_share_ids : NoDup (map Share._id (noteShares db));
  wf_pairs : forall n u, List.length (by_note_and_user n u db) <= 1
}.

(** [shareNote] called once per permission of [ps], in order, with the
    other arguments fixed. *)
Fixpoint shareSeq (owner noteId : Id) (email : jsstring) (ps : list Permission)
  : Mutation unit :=
  match ps with
  | [] => ret tt
  | p :: ps' =>
      shareNote (Some owner) noteId email p ;;; shareSeq owner noteId email ps'
  end.

(** A small store for the examples: two users, then a note that user [0]
    creates with the defaults (so it is public), shares with user [1] for
    writing, and a private note of user [0] shared with user [1] for
    reading. *)
Definition alice : User.t := User.mk 0 (Some (str "Alice")) (Some (str "a@x.org")).
Definition bob : User.t := User.mk 1 None (Some (str "b@x.org")).

Definition two_users : DB := mkDB [alice; bob] [] [] 2.

Definition demo_script : Mutation unit :=
  pub <- createNote (Some 0) 100 (str "plan") None None ;;
  shareNote (Some 0) pub (str "b@x.org") write ;;;
  priv <- createNote (Some 0) 101 (str "diary") (Some (str "dear")) (Some false) ;;
  shareNote (Some 0) priv (str "b@x.org") read.

Definition demo_db : DB := Eval vm_compute in snd (demo_script two_users).

Definition demo_public_note : Note.t :=
  Note.mk 2 (str "plan") [] true 0 None 100.
Definition demo_private_note : Note.t :=
  Note.mk 4 (str "diary") (str "dear") false 0 None 101.

(** The index that matches every note of the table that passes the
    equality filter, in table order. *)
Definition match_all (_ : jsstring) (f : SearchFilter) (tbl : list Note.t)
  : list Note.t :=
  filter (filter_holds f) tbl.

(** ** The listing queries of [notes.ts] *)

(** [withIndex("by_author", q => q.eq("authorId", u))] *)
Definition by_author (u : Id) (db : DB) : list Note.t :=
  filter (fun n => Nat.eqb (Note.authorId n) u) (notes db).

(** [withIndex("by_public", q => q.eq("isPublic", b))] *)
Definition by_public (b : bool) (db : DB) : list Note.t :=
  filter (fun n => Bool.eqb (Note.isPublic n) b) (notes db).

(** [.order("desc")]: under one value of the indexed field an index
    gives its documents by creation time, which is the order of the
    table; descending turns it round. *)
Definition order_desc {A} (idx : DB -> list A) : DB -> list A :=
  fun db => rev (idx db).

Definition getUserNotes (userId : option Id) : Query (list Note.t) :=
  match userId with
  | None => ret []
  | Some userId =>
      notes <- collect (order_desc (by_author userId)) ;;
      ret notes
  end.

Definition getPublicNotes : Query (list NoteWithAuthor.t) :=
  notes <- take 20 (collect (order_desc (by_public true))) ;;
  notesWithAuthors <-
    mapQ (fun note =>
            author <- get_user (Note.authorId note) ;;
            ret (NoteWithAuthor.mk note (authorName_or author (str "Anonymous"))))
         notes ;;
  ret notesWithAuthors.

(** ** Runs of mutations *)

(** One call of a mutation of the API, with the identity and the clock of
    the call. *)
Inductive Call :=
| CreateNote (userId : option Id) (now : Z) (title : jsstring)
             (content : option jsstring) (isPublic : option bool)
| UpdateNote (userId : option Id) (now : Z) (noteId : Id)
             (title content : option jsstring) (isPublic : option bool)
| DeleteNote (userId : option Id) (noteId : Id)
| ShareNote (userId : option Id) (noteId : Id) (email : jsstring)
            (permission : Permission).

(** The outcome of a call, its return value dropped. *)
Definition run_call (c : Call) : Mutation unit :=
  match c with
  | CreateNote userId now title content isPublic =>
      createNote userId now title content isPublic ;;; ret tt
  | UpdateNote userId now noteId title content isPublic =>
      updateNote userId now noteId title content isPublic
  | DeleteNote userId noteId => deleteNote userId noteId
  | ShareNote userId noteId email permission =>
      shareNote userId noteId email permission
  end.

(** The store after a run of calls, each call made whether or not the
    one before it threw. *)
Fixpoint run_calls (cs : list Call) (db : DB) : DB :=
  match cs with
  | [] => db
  | c :: cs' => run_calls cs' (snd (run_call c db))
  end.

(** A share refers to a note of the store, was granted by the note's
    author, and is not held by the author. *)
Definition share_ok (db : DB) (s : Share.t) : Prop :=
  exists note,
    find_by Note._id (Share.noteId s) (notes db) = Some note
    /\ Note.authorId note = Share.sharedBy s
    /\ Share.sharedWithId s <> Share.sharedBy s.

Definition SharesOK (db : DB) : Prop := Forall (share_ok db) (noteShares db).

(** The calls that build the example store from [two_users]. *)
Definition demo_calls : list Call :=
  [CreateNote (Some 0) 100 (str "plan") None None;
   ShareNote (Some 0) 2 (str "b@x.org") write;
   CreateNote (Some 0) 101 (str "diary") (Some (str "dear")) (Some false);
   ShareNote (Some 0) 4 (str "b@x.org") read].

(** What [getNote] grants a requester on a note: nothing ([null]), or
    the note with its [canEdit]. *)
Definition access (requester : option Id) (noteId : Id) (db : DB)
  : result (option bool) :=
  match getNote requester noteId db with
  | Ok (Some v) => Ok (Some (NoteWithAccess.canEdit v))
  | Ok None => Ok None
  | Err e => Err e
  end.

(** A store with ten public notes of user [0] and, created last, a private
    note of user [1]. *)
Definition crowded_calls : list Call :=
  repeat (CreateNote (Some 0) 1 (str "p") None None) 10
  ++ [CreateNote (Some 1) 2 (str "mine") None (Some false)].

Definition crowded_db : DB := Eval vm_compute in run_calls crowded_calls two_users.










(** * Properties *)

(** ** The store's reads *)

Lemma find_by_id {A} (id_of : A -> Id) i l d :
  find_by id_of i l = Some d -> id_of d = i /\ In d l.
Proof.
  unfold find_by. intros H. apply find_some in H.
  destruct H as [Hin Heq]. apply Nat.eqb_eq in Heq. auto.
Qed.

Lemma find_by_has_id {A} (id_of : A -> Id) i l d :
  find_by id_of i l = Some d -> has_id id_of i l = true.
Proof.
  intros H. apply find_by_id in H. destruct H as [Hid Hin].
  unfold has_id. apply existsb_exists. exists d. split; auto.
  now apply Nat.eqb_eq.
Qed.

Lemma find_by_none {A} (id_of : A -> Id) i l :
  find_by id_of i l = None <-> ~ In i (map id_of l).
Proof.
  unfold find_by. induction l as [|d l IH]; simpl.
  - tauto.
  - destruct (Nat.eqb_spec (id_of d) i) as [E|E].
    + split; [discriminate | intros H; exfalso; apply H; auto].
    + rewrite IH. tauto.
Qed.

Lemma mapQ_reads {A B} (f : A -> Query B) (g : A -> B) db l :
  (forall x, In x l -> f x db = Ok (g x)) -> mapQ f l db = Ok (map g l).
Proof.
  induction l as [|x l IH]; intros H; simpl.
  - reflexivity.
  - unfold bindQ. rewrite H by (left; reflexivity).
    rewrite IH by (intros; apply H; right; assumption). reflexivity.
Qed.

Lemma optId_eqb_eq (r : option Id) (a : Id) : optId_eqb r a = true <-> r = Some a.
Proof.
  destruct r as [x|]; simpl.
  - rewrite Nat.eqb_eq. split; congruence.
  - split; discriminate.
Qed.

Ltac run := unfold bind, ret, throw; simpl; unfold bindQ, bindM, runQuery; simpl.

(** ** [getNote] *)

(** C2. A public note is returned to every requester, signed in or not,
    and its [canEdit] flag is [true] exactly when the requester is the
    note's author, whatever shares the store holds. *)
Theorem getNote_public (db : DB) (requester : option Id) (noteId : Id)
    (note : Note.t) :
  get_note noteId db = Ok (Some note) ->
  Note.isPublic note = true ->
  exists v,
    getNote requester noteId db = Ok (Some v)
    /\ NoteWithAccess.note v = note
    /\ NoteWithAccess.authorName v =
         authorName_or (find_by User._id (Note.authorId note) (users db))
                       (str "Anonymous")
    /\ (NoteWithAccess.canEdit v = true <-> requester = Some (Note.authorId note)).
Proof.
  intros Hget Hpub. unfold getNote. run.
  unfold get_note in Hget. injection Hget as Hget. rewrite Hget, Hpub. simpl.
  eexists. split; [reflexivity|]. simpl.
  repeat split; try apply optId_eqb_eq; apply optId_eqb_eq.
Qed.

(** C3. A private note is not returned to a requester who is neither its
    author nor holds a share on it: the result is the [null] of a missing
    note, equal to what [getNote] gives in any store where the identifier
    does not exist. *)
Theorem getNote_private_hidden (db : DB) (requester : option Id) (noteId : Id)
    (note : Note.t) :
  get_note noteId db = Ok (Some note) ->
  Note.isPublic note = false ->
  requester <> Some (Note.authorId note) ->
  (forall u, requester = Some u -> by_note_and_user noteId u db = []) ->
  getNote requester noteId db = Ok None
  /\ forall db', get_note noteId db' = Ok None ->
                 getNote requester noteId db' = getNote requester noteId db.
Proof.
  intros Hget Hpriv Hown Hshare.
  assert (E : getNote requester noteId db = Ok None).
  { unfold getNote. run. unfold get_note in Hget. injection Hget as Hget.
    rewrite Hget, Hpriv. destruct requester as [u|]; [|reflexivity].
    destruct (Nat.eqb_spec (Note.authorId note) u) as [Eu|Eu].
    - exfalso. apply Hown. now rewrite Eu.
    - unfold query_unique. rewrite (Hshare u eq_refl). reflexivity. }
  split; [exact E|].
  intros db' Hnone. rewrite E. unfold getNote. run.
  unfold get_note in Hnone. injection Hnone as Hnone. now rewrite Hnone.
Qed.

(** ** [updateNote] *)

Lemma find_by_patch_by {A} (id_of : A -> Id) i j (f : A -> A) l :
  (forall d, id_of (f d) = id_of d) ->
  find_by id_of j (patch_by id_of i f l) =
  if Nat.eqb i j then option_map f (find_by id_of j l) else find_by id_of j l.
Proof.
  intros Hid. unfold find_by, patch_by.
  induction l as [|d l IH]; simpl.
  - now destruct (Nat.eqb i j).
  - destruct (Nat.eqb_spec (id_of d) i) as [E|E].
    + rewrite Hid. destruct (Nat.eqb_spec (id_of d) j) as [E'|E'].
      * replace (Nat.eqb i j) with true
          by (symmetry; apply Nat.eqb_eq; congruence).
        reflexivity.
      * exact IH.
    + destruct (Nat.eqb_spec (id_of d) j) as [E'|E'].
      * destruct (Nat.eqb_spec i j); [congruence | reflexivity].
      * exact IH.
Qed.

(** What [updateNote] does once the note is fetched: the authorization
    check, then one [patch] with the updates it has built. *)
Lemma updateNote_run (db : DB) (R : Id) now N t c p note :
  find_by Note._id N (notes db) = Some note ->
  exists u,
    (forall n, apply_updates u n =
               Note.mk (Note._id n) (nullish t (Note.title n))
                 (nullish c (Note.content n))
                 (if Nat.eqb (Note.authorId note) R
                  then nullish p (Note.isPublic n) else Note.isPublic n)
                 (Note.authorId n) (Some R) now)
    /\ updateNote (Some R) now N t c p db =
       if Nat.eqb (Note.authorId note) R then patch_note N u db
       else match by_note_and_user N R db with
            | [] => (Err NotAuthorizedEdit, db)
            | [s] => if Permission_eqb (Share.permission s) write
                     then patch_note N u db
                     else (Err NotAuthorizedEdit, db)
            | _ :: _ :: _ => (Err NotUnique, db)
            end.
Proof.
  intros Hget. unfold updateNote. run. unfold get_note. rewrite Hget.
  destruct (Nat.eqb (Note.authorId note) R) eqn:Eown; simpl.
  - eexists. split; [|reflexivity].
    intros n. destruct t, c, p; reflexivity.
  - unfold query_unique.
    exists (match c with
            | Some c' => set_content c'
            | None => fun u => u
            end
              (match t with
               | Some t' => set_title t'
               | None => fun u => u
               end (mkUpdates (Some R) (Some now) None None None))).
    split.
    + intros n. destruct t, c, p; reflexivity.
    + destruct (by_note_and_user N R db) as [|s [|s' l]]; simpl; try reflexivity.
      destruct (Permission_eqb (Share.permission s) write); simpl;
        destruct t, c, p; reflexivity.
Qed.

Lemma patch_note_run (db : DB) N u note :
  find_by Note._id N (notes db) = Some note ->
  patch_note N u db =
  (Ok tt, mkDB (users db) (patch_by Note._id N (apply_updates u) (notes db))
               (noteShares db) (nextId db)).
Proof.
  intros Hget. unfold patch_note. now rewrite (find_by_has_id _ _ _ Hget).
Qed.

Lemma has_write_share_one N R db s :
  by_note_and_user N R db = [s] ->
  has_write_share R N db = Permission_eqb (Share.permission s) write.
Proof.
  intros E. unfold has_write_share. rewrite E. simpl. apply orb_false_r.
Qed.

(** The guard of [updateNote].  For a signed-in requester and an existing
    note, [updateNote] throws "Not authorized to edit this note" exactly
    when the requester is neither the author nor the holder of a [write]
    share, and succeeds exactly when the requester is one of the two,
    whether the note is public or not; any failure leaves the store as it
    was; on a private note this test is the [canEdit] of [getNote]. *)
Theorem updateNote_authorization (db : DB) (R : Id) (now : Z) (N : Id)
    (t c : option jsstring) (p : option bool) (note : Note.t) :
  get_note N db = Ok (Some note) ->
  List.length (by_note_and_user N R db) <= 1 ->
  let granted := Nat.eqb (Note.authorId note) R || has_write_share R N db in
  let r := updateNote (Some R) now N t c p db in
  (fst r = Err NotAuthorizedEdit <-> granted = false)
  /\ kind NotAuthorizedEdit = AuthorizationError
  /\ (fst r = Ok tt <-> granted = true)
  /\ (forall e, fst r = Err e -> snd r = db)
  /\ (Note.isPublic note = false -> resolver_canEdit R N db = granted).
Proof.
  intros Hget Hlen granted r. unfold get_note in Hget. injection Hget as Hget.
  destruct (updateNote_run db R now N t c p Hget) as [u [_ Hrun]].
  subst r granted. rewrite Hrun. clear Hrun.
  rewrite (@patch_note_run db N u note Hget).
  assert (Hres : Note.isPublic note = false ->
                 resolver_canEdit R N db =
                 Nat.eqb (Note.authorId note) R || has_write_share R N db).
  { intros Hpriv. unfold resolver_canEdit, getNote. run. unfold get_note.
    rewrite Hget, Hpriv.
    destruct (Nat.eqb (Note.authorId note) R); [reflexivity|]. simpl.
    unfold query_unique, has_write_share.
    destruct (by_note_and_user N R db) as [|s [|s' l]]; simpl in *;
      [reflexivity | now rewrite orb_false_r | lia]. }
  destruct (Nat.eqb (Note.authorId note) R) eqn:Eown; simpl.
  - repeat split; try discriminate; auto.
  - destruct (by_note_and_user N R db) as [|s [|s' l]] eqn:Esh; simpl in *.
    + unfold has_write_share in *. rewrite Esh in *. simpl.
      repeat split; try discriminate; auto.
    + rewrite (has_write_share_one _ _ _ Esh) in *.
      destruct (Permission_eqb (Share.permission s) write); simpl;
        repeat split; try discriminate; auto.
    + lia.
Qed.

(** Whether [updateNote] succeeds does not depend on the [isPublic]
    argument. *)
Lemma updateNote_success_any_isPublic (db : DB) (R : Id) now N t c p p' note :
  find_by Note._id N (notes db) = Some note ->
  fst (updateNote (Some R) now N t c p db) = Ok tt ->
  fst (updateNote (Some R) now N t c p' db) = Ok tt.
Proof.
  intros Hget.
  destruct (updateNote_run db R now N t c p Hget) as [u [_ Hrun]].
  destruct (updateNote_run db R now N t c p' Hget) as [u' [_ Hrun']].
  rewrite Hrun, Hrun'.
  rewrite (@patch_note_run db N u note Hget), (@patch_note_run db N u' note Hget).
  destruct (Nat.eqb (Note.authorId note) R); [auto|].
  destruct (by_note_and_user N R db) as [|s [|s' l]]; auto.
  destruct (Permission_eqb (Share.permission s) write); auto.
Qed.

(** C7. A successful [updateNote] stamps the note with the requester and
    the current time, keeps every omitted field, keeps the author, and
    takes a supplied [isPublic] only from the author: from any other
    editor it is dropped without an error, the call succeeding whatever
    [isPublic] is supplied.  Other notes, the shares and the users are
    untouched. *)
Theorem updateNote_effect (db : DB) (R : Id) (now : Z) (N : Id)
    (t c : option jsstring) (p : option bool) (note : Note.t) :
  get_note N db = Ok (Some note) ->
  fst (updateNote (Some R) now N t c p db) = Ok tt ->
  let db' := snd (updateNote (Some R) now N t c p db) in
  get_note N db' =
    Ok (Some (Note.mk N
                (nullish t (Note.title note))
                (nullish c (Note.content note))
                (if Nat.eqb (Note.authorId note) R
                 then nullish p (Note.isPublic note)
                 else Note.isPublic note)
                (Note.authorId note) (Some R) now))
  /\ (forall p', fst (updateNote (Some R) now N t c p' db) = Ok tt)
  /\ (forall N', N' <> N -> get_note N' db' = get_note N' db)
  /\ noteShares db' = noteShares db
  /\ users db' = users db.
Proof.
  intros Hget Hok db'. unfold get_note in Hget. injection Hget as Hget.
  assert (Hany : forall p', fst (updateNote (Some R) now N t c p' db) = Ok tt)
    by (intros p'; now apply (@updateNote_success_any_isPublic db R now N t c p p' note)).
  cut (get_note N db' =
         Ok (Some (Note.mk N
                     (nullish t (Note.title note))
                     (nullish c (Note.content note))
                     (if Nat.eqb (Note.authorId note) R
                      then nullish p (Note.isPublic note)
                      else Note.isPublic note)
                     (Note.authorId note) (Some R) now))
       /\ (forall N', N' <> N -> get_note N' db' = get_note N' db)
       /\ noteShares db' = noteShares db
       /\ users db' = users db); [tauto|].
  clear Hany.
  destruct (updateNote_run db R now N t c p Hget) as [u [Hu Hrun]].
  subst db'. rewrite Hrun in *. clear Hrun.
  rewrite (@patch_note_run db N u note Hget) in *.
  assert (Hid : forall d, Note._id (apply_updates u d) = Note._id d)
    by (intros d; reflexivity).
  assert (Hdone :
    let db' := mkDB (users db) (patch_by Note._id N (apply_updates u) (notes db))
                    (noteShares db) (nextId db) in
    get_note N db' =
      Ok (Some (Note.mk N (nullish t (Note.title note))
                  (nullish c (Note.content note))
                  (if Nat.eqb (Note.authorId note) R
                   then nullish p (Note.isPublic note)
                   else Note.isPublic note)
                  (Note.authorId note) (Some R) now))
    /\ (forall N', N' <> N -> get_note N' db' = get_note N' db)
    /\ noteShares db' = noteShares db
    /\ users db' = users db).
  { simpl. unfold get_note. simpl. repeat split.
    - rewrite (find_by_patch_by Note._id N N _ _ Hid), Nat.eqb_refl, Hget.
      simpl. rewrite Hu. destruct (find_by_id _ _ _ Hget) as [E _].
      now rewrite E.
    - intros N' HN'. rewrite (find_by_patch_by Note._id N N' _ _ Hid).
      destruct (Nat.eqb_spec N N'); [congruence | reflexivity]. }
  destruct (Nat.eqb (Note.authorId note) R); [exact Hdone|].
  destruct (by_note_and_user N R db) as [|s [|s' l]]; simpl in Hok;
    try discriminate.
  destruct (Permission_eqb (Share.permission s) write); simpl in Hok;
    [exact Hdone | discriminate].
Qed.

(** ** [createNote] *)

Lemma find_by_app_fresh {A} (id_of : A -> Id) i l d :
  ~ In i (map id_of l) -> id_of d = i -> find_by id_of i (l ++ [d]) = Some d.
Proof.
  intros Hfresh Hid. unfold find_by. induction l as [|x l IH]; simpl in *.
  - now rewrite Hid, Nat.eqb_refl.
  - destruct (Nat.eqb_spec (id_of x) i) as [E|E]; [tauto|].
    apply IH. tauto.
Qed.

Lemma fresh_not_in {A} (id_of : A -> Id) k l :
  Forall (fun d => id_of d < k) l -> ~ In k (map id_of l).
Proof.
  intros Hall Hin. apply in_map_iff in Hin. destruct Hin as [d [Hd Hin]].
  rewrite Forall_forall in Hall. specialize (Hall d Hin). lia.
Qed.

(** C9. [createNote] throws "Not authenticated" for an anonymous
    requester and writes nothing.  For a signed-in requester it appends a
    note with the given title, the content or else the empty string,
    [isPublic ?? true], the requester as author and the current time as
    [lastEditedAt], and it returns the identifier under which the store
    then holds that note.
    With both optional arguments omitted the content is empty and the note
    is public. *)
Theorem createNote_spec (db : DB) (R : Id) (now : Z) (title : jsstring)
    (content : option jsstring) (isPublic : option bool) :
  Forall (fun n => Note._id n < nextId db) (notes db) ->
  (createNote None now title content isPublic db = (Err NotAuthenticated, db)
   /\ kind NotAuthenticated = AuthenticationError)
  /\ (exists noteId db',
        createNote (Some R) now title content isPublic db = (Ok noteId, db')
        /\ get_note noteId db' =
             Ok (Some (Note.mk noteId title (js_or content [])
                         (nullish isPublic true) R None now))
        /\ get_note noteId db = Ok None
        /\ notes db' = notes db ++
                         [Note.mk noteId title (js_or content [])
                            (nullish isPublic true) R None now])
  /\ (exists noteId db',
        createNote (Some R) now title None None db = (Ok noteId, db')
        /\ get_note noteId db' =
             Ok (Some (Note.mk noteId title [] true R None now))).
Proof.
  intros Hfresh. pose proof (fresh_not_in Note._id Hfresh) as Hnew.
  split; [split; reflexivity|]. split.
  - exists (nextId db). eexists. split; [reflexivity|].
    unfold get_note; simpl. repeat split.
    + now rewrite find_by_app_fresh.
    + f_equal. now apply find_by_none.
  - exists (nextId db). eexists. split; [reflexivity|].
    unfold get_note; simpl. now rewrite find_by_app_fresh.
Qed.

(** ** [shareNote] *)

(** What [shareNote] does once the note is fetched and the requester is
    its author. *)
Lemma shareNote_run (db : DB) (R N : Id) email p note :
  find_by Note._id N (notes db) = Some note ->
  Note.authorId note = R ->
  shareNote (Some R) N email p db =
  match by_email email db with
  | [] => (Err UserNotFound, db)
  | [U] =>
      if Nat.eqb (User._id U) R then (Err CannotShareWithYourself, db)
      else match by_note_and_user N (User._id U) db with
           | [] => (Ok tt,
                    mkDB (users db) (notes db)
                         (noteShares db ++
                            [Share.mk (nextId db) N (User._id U) p R])
                         (S (nextId db)))
           | [s] => patch_share (Share._id s) p db
           | _ :: _ :: _ => (Err NotUnique, db)
           end
  | _ :: _ :: _ => (Err NotUnique, db)
  end.
Proof.
  intros Hget Hown. unfold shareNote. run. unfold get_note. rewrite Hget.
  rewrite Hown, Nat.eqb_refl. simpl. unfold query_unique.
  destruct (by_email email db) as [|U [|U' l]]; simpl; try reflexivity.
  destruct (Nat.eqb (User._id U) R); [reflexivity|].
  destruct (by_note_and_user N (User._id U) db) as [|s [|s' l]]; simpl;
    reflexivity.
Qed.

Lemma patch_share_fails (db : DB) i p e :
  fst (patch_share i p db) = Err e -> snd (patch_share i p db) = db.
Proof.
  unfold patch_share. destruct (has_id Share._id i (noteShares db)); simpl;
    [discriminate | reflexivity].
Qed.

(** A throw of [shareNote] happens before any write. *)
Lemma shareNote_fails_unchanged (db : DB) requester N email p e :
  fst (shareNote requester N email p db) = Err e ->
  snd (shareNote requester N email p db) = db.
Proof.
  destruct requester as [R|]; [|reflexivity].
  destruct (find_by Note._id N (notes db)) as [note|] eqn:Hget.
  - destruct (Nat.eqb_spec (Note.authorId note) R) as [E|E].
    + rewrite (@shareNote_run db R N email p note Hget E).
      destruct (by_email email db) as [|U [|U' l]]; try reflexivity.
      destruct (Nat.eqb (User._id U) R); [reflexivity|].
      destruct (by_note_and_user N (User._id U) db) as [|s [|s' l]];
        try reflexivity; [discriminate | apply patch_share_fails].
    + intros _. unfold shareNote. run. unfold get_note. rewrite Hget.
      destruct (Nat.eqb_spec (Note.authorId note) R); [congruence | reflexivity].
  - intros _. unfold shareNote. run. unfold get_note. now rewrite Hget.
Qed.

(** C8. With the note fetched, [shareNote] throws "Not authorized to
    share this note" for a requester other than the author, "User not
    found" when the author names an email no user has, and "Cannot share
    note with yourself" when the email is the author's own, for either
    permission; and whenever [shareNote] throws, for whatever reason, the
    store is as it was. *)
Theorem shareNote_failures (db : DB) (N : Id) (email : jsstring) (note : Note.t) :
  get_note N db = Ok (Some note) ->
  (forall R p, R <> Note.authorId note ->
     shareNote (Some R) N email p db = (Err NotAuthorizedShare, db))
  /\ (forall p, by_email email db = [] ->
        shareNote (Some (Note.authorId note)) N email p db = (Err UserNotFound, db))
  /\ (forall U p, by_email email db = [U] -> User._id U = Note.authorId note ->
        shareNote (Some (Note.authorId note)) N email p db
        = (Err CannotShareWithYourself, db))
  /\ (kind NotAuthorizedShare = AuthorizationError
      /\ kind UserNotFound = NotFoundError
      /\ kind CannotShareWithYourself = ValidationError)
  /\ (forall requester p e,
        fst (shareNote requester N email p db) = Err e ->
        snd (shareNote requester N email p db) = db).
Proof.
  intros Hget. unfold get_note in Hget. injection Hget as Hget.
  split; [|split; [|split; [|split]]].
  - intros R p HR. unfold shareNote. run. unfold get_note. rewrite Hget.
    destruct (Nat.eqb_spec (Note.authorId note) R); [congruence | reflexivity].
  - intros p He. rewrite (@shareNote_run db _ N email p note Hget eq_refl), He.
    reflexivity.
  - intros U p He HU. rewrite (@shareNote_run db _ N email p note Hget eq_refl), He.
    now rewrite HU, Nat.eqb_refl.
  - repeat split.
  - intros requester p e. apply shareNote_fails_unchanged.
Qed.

Lemma filter_patch_by {A} (id_of : A -> Id) (q : A -> bool) i f l :
  (forall d, q (f d) = q d) ->
  filter q (patch_by id_of i f l) = patch_by id_of i f (filter q l).
Proof.
  intros Hq. unfold patch_by. induction l as [|d l IH]; simpl; [reflexivity|].
  destruct (Nat.eqb (id_of d) i) eqn:E.
  - rewrite Hq. destruct (q d); simpl; [rewrite E|]; now rewrite IH.
  - destruct (q d); simpl; [rewrite E|]; now rewrite IH.
Qed.

Lemma map_id_patch_by {A} (id_of : A -> Id) i f l :
  (forall d, id_of (f d) = id_of d) ->
  map id_of (patch_by id_of i f l) = map id_of l.
Proof.
  intros Hid. unfold patch_by. rewrite map_map. apply map_ext.
  intros d. destruct (Nat.eqb (id_of d) i); [apply Hid | reflexivity].
Qed.

Lemma NoDup_ids_inj {A} (id_of : A -> Id) l x y :
  NoDup (map id_of l) -> In x l -> In y l -> id_of x = id_of y -> x = y.
Proof.
  induction l as [|d l IH]; simpl; intros Hnd Hx Hy E; [tauto|].
  inversion Hnd as [|? ? Hnotin Hnd']; subst.
  destruct Hx as [Hx|Hx], Hy as [Hy|Hy]; subst; auto.
  - exfalso. apply Hnotin. rewrite E. now apply in_map.
  - exfalso. apply Hnotin. rewrite <- E. now apply in_map.
Qed.

Lemma patch_by_fixed {A} (id_of : A -> Id) f l s :
  NoDup (map id_of l) -> In s l -> f s = s -> patch_by id_of (id_of s) f l = l.
Proof.
  intros Hnd Hin Hf. unfold patch_by. rewrite <- (map_id l) at 2.
  apply map_ext_in. intros d Hd.
  destruct (Nat.eqb_spec (id_of d) (id_of s)) as [E|E]; [|reflexivity].
  rewrite (NoDup_ids_inj id_of l d s Hnd Hd Hin E). exact Hf.
Qed.

Lemma by_note_and_user_patch (db : DB) n u i p :
  filter (fun s => Nat.eqb (Share.noteId s) n && Nat.eqb (Share.sharedWithId s) u)
         (patch_by Share._id i (set_permission p) (noteShares db))
  = patch_by Share._id i (set_permission p) (by_note_and_user n u db).
Proof.
  unfold by_note_and_user. apply filter_patch_by. reflexivity.
Qed.

(** *** The store's invariants are kept *)

Lemma WF_emptyDB : WF emptyDB.
Proof.
  constructor; simpl;
    [constructor | constructor | constructor | constructor |].
  intros n u. unfold by_note_and_user. simpl. lia.
Qed.

Lemma Forall_lt_S {A} (id_of : A -> Id) k l :
  Forall (fun d => id_of d < k) l -> Forall (fun d => id_of d < S k) l.
Proof.
  intros H. eapply Forall_impl; [|exact H]. simpl. intros. lia.
Qed.

Lemma NoDup_ids_snoc {A} (id_of : A -> Id) l d :
  NoDup (map id_of l) -> ~ In (id_of d) (map id_of l) ->
  NoDup (map id_of (l ++ [d])).
Proof.
  intros Hnd Hnew. rewrite map_app. simpl.
  apply NoDup_app; [exact Hnd | repeat constructor; simpl; tauto |].
  intros a Ha [E|[]]. subst. contradiction.
Qed.

Lemma WF_insert_note (db : DB) t c b a now :
  WF db -> WF (snd (insert_note t c b a now db)).
Proof.
  intros [Hnf Hsf Hni Hsi Hp]. constructor; simpl.
  - apply Forall_app. split; [now apply Forall_lt_S|].
    constructor; [simpl; lia | constructor].
  - now apply Forall_lt_S.
  - apply NoDup_ids_snoc; [exact Hni|]. now apply fresh_not_in.
  - exact Hsi.
  - exact Hp.
Qed.

Lemma WF_insert_share (db : DB) n u p by_ :
  WF db -> by_note_and_user n u db = [] ->
  WF (snd (insert_share n u p by_ db)).
Proof.
  intros [Hnf Hsf Hni Hsi Hp] Hnone. constructor; simpl.
  - now apply Forall_lt_S.
  - apply Forall_app. split; [now apply Forall_lt_S|].
    constructor; [simpl; lia | constructor].
  - exact Hni.
  - apply NoDup_ids_snoc; [exact Hsi|]. now apply fresh_not_in.
  - intros n' u'. unfold by_note_and_user in *. simpl. rewrite filter_app.
    rewrite length_app. simpl.
    destruct (Nat.eqb_spec n n') as [En|En]; simpl.
    + destruct (Nat.eqb_spec u u') as [Eu|Eu]; simpl.
      * subst. rewrite Hnone. simpl. lia.
      * specialize (Hp n' u'). lia.
    + specialize (Hp n' u'). lia.
Qed.

Lemma WF_patch_share (db : DB) i p :
  WF db -> WF (snd (patch_share i p db)).
Proof.
  intros H. unfold patch_share.
  destruct (has_id Share._id i (noteShares db)); [|exact H].
  destruct H as [Hnf Hsf Hni Hsi Hp]. constructor; simpl; auto.
  - unfold patch_by. apply Forall_map. eapply Forall_impl; [|exact Hsf].
    intros d Hd. simpl in *. now destruct (Nat.eqb (Share._id d) i).
  - rewrite map_id_patch_by; [exact Hsi | reflexivity].
  - intros n u. unfold by_note_and_user at 1. simpl.
    rewrite by_note_and_user_patch. unfold patch_by. rewrite length_map.
    apply Hp.
Qed.

Lemma WF_patch_note (db : DB) i u :
  WF db -> WF (snd (patch_note i u db)).
Proof.
  intros H. unfold patch_note.
  destruct (has_id Note._id i (notes db)); [|exact H].
  destruct H as [Hnf Hsf Hni Hsi Hp]. constructor; simpl; auto.
  - unfold patch_by. apply Forall_map. eapply Forall_impl; [|exact Hnf].
    intros d Hd. simpl in *. now destruct (Nat.eqb (Note._id d) i).
  - rewrite map_id_patch_by; [exact Hni | reflexivity].
Qed.

Lemma in_has_id {A} (id_of : A -> Id) l d :
  In d l -> has_id id_of (id_of d) l = true.
Proof.
  intros Hin. unfold has_id. apply existsb_exists. exists d.
  split; [exact Hin | apply Nat.eqb_refl].
Qed.

Lemma by_note_and_user_In (db : DB) n u s :
  In s (by_note_and_user n u db) ->
  In s (noteShares db) /\ Share.noteId s = n /\ Share.sharedWithId s = u.
Proof.
  unfold by_note_and_user. rewrite filter_In, andb_true_iff, !Nat.eqb_eq. tauto.
Qed.

(** Sharing again with the permission the pair's share already has is a
    successful call that leaves the store as it is. *)
Lemma shareNote_again (db : DB) (O N : Id) email p note U s :
  WF db ->
  find_by Note._id N (notes db) = Some note -> Note.authorId note = O ->
  by_email email db = [U] -> User._id U <> O ->
  by_note_and_user N (User._id U) db = [s] -> Share.permission s = p ->
  shareNote (Some O) N email p db = (Ok tt, db).
Proof.
  intros Hwf Hget Hown He HU Hs Hp.
  rewrite (@shareNote_run db O N email p note Hget Hown), He.
  destruct (Nat.eqb_spec (User._id U) O); [contradiction|]. rewrite Hs.
  assert (Hin : In s (noteShares db)).
  { apply (by_note_and_user_In db N (User._id U)). rewrite Hs. now left. }
  unfold patch_share. rewrite (in_has_id Share._id _ _ Hin).
  rewrite patch_by_fixed; [destruct db; reflexivity | apply Hwf | exact Hin |].
  destruct s; simpl in *. now subst.
Qed.

(** A successful [shareNote] leaves exactly one share for the pair, with
    the permission given, in a store that keeps its invariants. *)
Lemma shareNote_success (db : DB) (O N : Id) email p :
  WF db ->
  fst (shareNote (Some O) N email p db) = Ok tt ->
  let db' := snd (shareNote (Some O) N email p db) in
  exists U s,
    by_email email db = [U] /\ User._id U <> O
    /\ WF db' /\ users db' = users db
    /\ by_note_and_user N (User._id U) db' = [s] /\ Share.permission s = p
    /\ shareNote (Some O) N email p db' = (Ok tt, db').
Proof.
  intros Hwf Hok db'.
  destruct (find_by Note._id N (notes db)) as [note|] eqn:Hget;
    [|unfold shareNote in Hok; revert Hok; run; unfold get_note;
      rewrite Hget; discriminate].
  destruct (Nat.eqb_spec (Note.authorId note) O) as [Hown|Hown];
    [|unfold shareNote in Hok; revert Hok; run; unfold get_note;
      rewrite Hget; destruct (Nat.eqb_spec (Note.authorId note) O);
      [contradiction | discriminate]].
  subst db'. rewrite (@shareNote_run db O N email p note Hget Hown) in *.
  destruct (by_email email db) as [|U [|U' l]] eqn:He; try discriminate.
  destruct (Nat.eqb_spec (User._id U) O) as [HU|HU]; [discriminate|].
  destruct (by_note_and_user N (User._id U) db) as [|s [|s' l]] eqn:Hs;
    try discriminate.
  - (* no share yet: one is inserted *)
    set (new := Share.mk (nextId db) N (User._id U) p O).
    assert (Hwf' : WF (snd (insert_share N (User._id U) p O db)))
      by now apply WF_insert_share.
    assert (Hone : by_note_and_user N (User._id U)
                     (snd (insert_share N (User._id U) p O db)) = [new]).
    { unfold by_note_and_user in *. simpl. rewrite filter_app, Hs. simpl.
      now rewrite !Nat.eqb_refl. }
    unfold insert_share in Hwf', Hone. cbn [snd] in Hwf', Hone |- *.
    exists U, new.
    split; [reflexivity|]. split; [exact HU|]. split; [exact Hwf'|].
    split; [reflexivity|]. split; [exact Hone|]. split; [reflexivity|].
    eapply shareNote_again; eauto.
  - (* a share exists: its permission is patched *)
    assert (Hin : In s (noteShares db)).
    { apply (by_note_and_user_In db N (User._id U)). rewrite Hs. now left. }
    pose proof (WF_patch_share (Share._id s) p Hwf) as Hwf'.
    unfold patch_share in *. rewrite (in_has_id Share._id _ _ Hin) in *.
    assert (Hone : by_note_and_user N (User._id U)
                     (mkDB (users db) (notes db)
                        (patch_by Share._id (Share._id s) (set_permission p)
                           (noteShares db)) (nextId db))
                   = [set_permission p s]).
    { unfold by_note_and_user at 1. simpl. rewrite by_note_and_user_patch, Hs.
      simpl. now rewrite Nat.eqb_refl. }
    cbn [snd] in Hwf' |- *.
    exists U, (set_permission p s).
    split; [reflexivity|]. split; [exact HU|]. split; [exact Hwf'|].
    split; [reflexivity|]. split; [exact Hone|]. split; [reflexivity|].
    eapply shareNote_again; eauto.
Qed.

(** C5. [shareNote] is an upsert.  After any non-empty run of successful
    calls by the owner for the same note and email, the pair has exactly
    one share, its permission is the one of the last call, and the last
    call made again succeeds and leaves the store as it is.  The target
    is a user other than the owner, and the store keeps its invariants,
    so no pair has two shares. *)
Theorem shareNote_upsert (db : DB) (O N : Id) (email : jsstring)
    (ps : list Permission) (p0 : Permission) :
  WF db ->
  ps <> [] ->
  fst (shareSeq O N email ps db) = Ok tt ->
  let db' := snd (shareSeq O N email ps db) in
  exists U s,
    by_email email db = [U] /\ User._id U <> O
    /\ by_note_and_user N (User._id U) db' = [s]
    /\ Share.permission s = last ps p0
    /\ shareNote (Some O) N email (last ps p0) db' = (Ok tt, db')
    /\ WF db'.
Proof.
  revert db. induction ps as [|p ps IH]; intros db Hwf Hne Hok; [congruence|].
  cbn [shareSeq] in Hok |- *.
  unfold bind, Mutation_Monad, bindM in Hok |- *.
  pose proof (@shareNote_success db O N email p Hwf) as Hone.
  destruct (shareNote (Some O) N email p db) as [[[]|e] db1];
    [|discriminate].
  cbn [fst snd] in Hone.
  destruct (Hone eq_refl) as [U [s [He [HU [Hwf1 [Hus [Hs [Hp Hagain]]]]]]]].
  destruct ps as [|p' ps'].
  - simpl. exists U, s. repeat (split; [assumption|]). exact Hwf1.
  - assert (Hne' : p' :: ps' <> []) by discriminate.
    destruct (IH db1 Hwf1 Hne' Hok) as [U' [s' [He' H']]].
    assert (E : by_email email db1 = by_email email db)
      by (unfold by_email; now rewrite Hus).
    rewrite E, He in He'. injection He' as <-.
    exists U, s'. split; [exact He|]. exact H'.
Qed.

(** With the note in place and its author calling, [shareNote] succeeds
    as soon as the email names one user other than the author. *)
Lemma shareNote_succeeds (db : DB) (O N : Id) email p note U :
  WF db ->
  get_note N db = Ok (Some note) -> Note.authorId note = O ->
  by_email email db = [U] -> User._id U <> O ->
  fst (shareNote (Some O) N email p db) = Ok tt.
Proof.
  intros Hwf Hget Hown He HU. unfold get_note in Hget. injection Hget as Hget.
  rewrite (@shareNote_run db O N email p note Hget Hown), He.
  destruct (Nat.eqb_spec (User._id U) O); [contradiction|].
  pose proof (wf_pairs Hwf N (User._id U)) as Hlen.
  destruct (by_note_and_user N (User._id U) db) as [|s [|s' l]] eqn:Hs;
    simpl in Hlen; [reflexivity | | lia].
  assert (Hin : In s (noteShares db)).
  { apply (by_note_and_user_In db N (User._id U)). rewrite Hs. now left. }
  unfold patch_share. now rewrite (in_has_id Share._id _ _ Hin).
Qed.

(** ** [deleteNote] *)

Lemma NoDup_ids_filter {A} (id_of : A -> Id) (q : A -> bool) l :
  NoDup (map id_of l) -> NoDup (map id_of (filter q l)).
Proof.
  induction l as [|d l IH]; simpl; intros Hnd; [constructor|].
  inversion Hnd as [|? ? Hnotin Hnd']; subst.
  destruct (q d); simpl; [|auto].
  constructor; [|auto]. intros Hin. apply Hnotin.
  apply in_map_iff in Hin. destruct Hin as [x [Hx Hin]].
  apply filter_In in Hin. rewrite <- Hx. apply in_map. tauto.
Qed.

Lemma filter_twice {A} (f g : A -> bool) l :
  filter f (filter g l) = filter (fun x => g x && f x) l.
Proof.
  induction l as [|x l IH]; simpl; [reflexivity|].
  destruct (g x); simpl; [destruct (f x)|]; now rewrite IH.
Qed.

Lemma id_in_spec ids i : id_in ids i = true <-> In i ids.
Proof.
  unfold id_in. rewrite existsb_exists. split.
  - intros [x [Hin E]]. apply Nat.eqb_eq in E. now subst.
  - intros Hin. exists i. split; [exact Hin | apply Nat.eqb_refl].
Qed.

(** The loop of [deleteNote] removes the documents it walks over, one
    [delete] each, none of them failing when their identifiers differ. *)
Lemma forM_delete_share (l : list Share.t) : forall db : DB,
  NoDup (map Share._id l) ->
  (forall s, In s l -> In s (noteShares db)) ->
  forM (fun share => delete_share (Share._id share)) l db =
  (Ok tt,
   mkDB (users db) (notes db)
        (filter (fun d => negb (id_in (map Share._id l) (Share._id d)))
                (noteShares db))
        (nextId db)).
Proof.
  induction l as [|x l IH]; intros db Hnd Hin.
  - simpl. unfold id_in. simpl. rewrite filter_true. now destruct db.
  - cbn [forM]. unfold bind, Mutation_Monad, bindM.
    inversion Hnd as [|? ? Hnotin Hnd']; subst.
    unfold delete_share at 1.
    rewrite (in_has_id Share._id _ _ (Hin x (or_introl eq_refl))).
    rewrite IH; [|exact Hnd'|].
    + simpl. f_equal. f_equal. unfold delete_by.
      rewrite filter_twice. apply filter_ext. intros d.
      unfold id_in. simpl.
      rewrite negb_orb. reflexivity.
    + intros s Hs. simpl. unfold delete_by. apply filter_In.
      split; [apply Hin; now right|].
      apply negb_true_iff, Nat.eqb_neq. intros E. apply Hnotin.
      rewrite <- E. now apply in_map.
Qed.

(** What [deleteNote] does for the author of a note that is in place. *)
Lemma deleteNote_run (db : DB) (N : Id) note :
  NoDup (map Share._id (noteShares db)) ->
  find_by Note._id N (notes db) = Some note ->
  deleteNote (Some (Note.authorId note)) N db =
  (Ok tt,
   mkDB (users db) (delete_by Note._id N (notes db))
        (filter (fun s => negb (Nat.eqb (Share.noteId s) N)) (noteShares db))
        (nextId db)).
Proof.
  intros Hnd Hget. unfold deleteNote. run. unfold get_note. rewrite Hget.
  rewrite Nat.eqb_refl. simpl. unfold collect.
  rewrite forM_delete_share;
    [| now apply NoDup_ids_filter
     | intros s Hs; unfold by_note in Hs; apply filter_In in Hs; tauto].
  unfold delete_note. simpl. rewrite (find_by_has_id _ _ _ Hget).
  f_equal. f_equal. apply filter_ext_in. intros d Hd. f_equal.
  destruct (Nat.eqb_spec (Share.noteId d) N) as [E|E].
  - apply id_in_spec. apply in_map. unfold by_note. apply filter_In.
    split; [exact Hd | now apply Nat.eqb_eq].
  - destruct (id_in (map Share._id (by_note N db)) (Share._id d)) eqn:Ein;
      [|reflexivity].
    apply id_in_spec, in_map_iff in Ein. destruct Ein as [x [Hx Hin]].
    unfold by_note in Hin. apply filter_In in Hin. destruct Hin as [Hin Hn].
    apply Nat.eqb_eq in Hn.
    rewrite (NoDup_ids_inj Share._id _ x d Hnd Hin Hd Hx) in Hn. contradiction.
Qed.

Lemma find_by_delete_by {A} (id_of : A -> Id) i l :
  find_by id_of i (delete_by id_of i l) = None.
Proof.
  apply find_by_none. intros Hin. apply in_map_iff in Hin.
  destruct Hin as [d [Hd Hin]]. unfold delete_by in Hin.
  apply filter_In in Hin. destruct Hin as [_ Hne].
  apply negb_true_iff, Nat.eqb_neq in Hne. contradiction.
Qed.

(** What [getSharedNotes] returns for a signed-in requester: one entry
    per share of the requester whose note is still in the store. *)
Lemma getSharedNotes_run (db : DB) (u : Id) :
  getSharedNotes (Some u) db =
  Ok (flat_map
        (fun share =>
           match find_by Note._id (Share.noteId share) (notes db) with
           | Some note =>
               [NoteWithShare.mk note
                  (authorName_or
                     (find_by User._id (Note.authorId note) (users db))
                     (str "Unknown"))
                  (Share.permission share)]
           | None => []
           end) (by_user u db)).
Proof.
  unfold getSharedNotes. run. unfold collect.
  erewrite mapQ_reads with
    (g := fun share =>
            match find_by Note._id (Share.noteId share) (notes db) with
            | Some note =>
                Some (NoteWithShare.mk note
                        (authorName_or
                           (find_by User._id (Note.authorId note) (users db))
                           (str "Unknown"))
                        (Share.permission share))
            | None => None
            end).
  - f_equal. induction (by_user u db) as [|s l IH]; simpl; [reflexivity|].
    rewrite IH.
    now destruct (find_by Note._id (Share.noteId s) (notes db)).
  - intros s _. unfold get_note.
    now destruct (find_by Note._id (Share.noteId s) (notes db)).
Qed.

(** C4. With the note in place, [deleteNote] succeeds exactly for its
    author; any other signed-in requester, share-holder or not, gets "Not
    authorized to delete this note" and the store is untouched.  The
    author's call removes the shares of the note and only those, then the
    note: afterwards no share refers to the note, the note is gone, and
    [getSharedNotes] of no user lists it. *)
Theorem deleteNote_cascade (db : DB) (R : option Id) (N : Id) (note : Note.t) :
  WF db ->
  get_note N db = Ok (Some note) ->
  let db' := snd (deleteNote R N db) in
  (fst (deleteNote R N db) = Ok tt <-> R = Some (Note.authorId note))
  /\ (forall u, R = Some u -> u <> Note.authorId note ->
        deleteNote R N db = (Err NotAuthorizedDelete, db)
        /\ kind NotAuthorizedDelete = AuthorizationError)
  /\ (R = Some (Note.authorId note) ->
        by_note N db' = []
        /\ get_note N db' = Ok None
        /\ noteShares db' =
             filter (fun s => negb (Nat.eqb (Share.noteId s) N)) (noteShares db)
        /\ notes db' = delete_by Note._id N (notes db)
        /\ forall u, exists views,
             getSharedNotes (Some u) db' = Ok views
             /\ Forall (fun v => Note._id (NoteWithShare.note v) <> N) views).
Proof.
  intros Hwf Hget db'. unfold get_note in Hget. injection Hget as Hget.
  pose proof (@deleteNote_run db N note (wf_share_ids Hwf) Hget) as Hrun.
  assert (Hother : forall u, u <> Note.authorId note ->
            deleteNote (Some u) N db = (Err NotAuthorizedDelete, db)).
  { intros u Hu. unfold deleteNote. run. unfold get_note. rewrite Hget.
    destruct (Nat.eqb_spec (Note.authorId note) u); [congruence|reflexivity]. }
  split; [|split].
  - split.
    + destruct R as [u|]; [|discriminate].
      destruct (Nat.eq_dec u (Note.authorId note)) as [E|E]; [now subst|].
      rewrite (Hother u E). discriminate.
    + intros ->. now rewrite Hrun.
  - intros u -> Hu. split; [now apply Hother | reflexivity].
  - intros ->. subst db'. rewrite Hrun. cbn [snd].
    split; [|split; [|split; [reflexivity | split; [reflexivity|]]]].
    + unfold by_note. simpl. rewrite filter_twice.
      rewrite (filter_ext _ (fun _ => false)), filter_false; [reflexivity|].
      intros s. now destruct (Share.noteId s =? N).
    + unfold get_note. simpl. now rewrite find_by_delete_by.
    + intros u. eexists. split; [apply getSharedNotes_run|].
      apply Forall_forall. intros v Hv. apply in_flat_map in Hv.
      destruct Hv as [s [_ Hv]]. simpl in Hv.
      destruct (find_by Note._id (Share.noteId s) (delete_by Note._id N (notes db)))
        as [n|] eqn:Hn; [|contradiction].
      destruct Hv as [<-|[]]. simpl.
      apply find_by_id in Hn. destruct Hn as [_ Hin].
      unfold delete_by in Hin. apply filter_In in Hin.
      destruct Hin as [_ Hne]. now apply negb_true_iff, Nat.eqb_neq in Hne.
Qed.

(** ** [searchNotes] *)

(** *** Blank queries *)

Lemma dropWhile_nil {A} (p : A -> bool) l :
  dropWhile p l = [] <-> forallb p l = true.
Proof.
  induction l as [|x l IH]; simpl; [tauto|].
  destruct (p x); simpl; [exact IH | split; discriminate].
Qed.

Lemma forallb_dropWhile {A} (p : A -> bool) l :
  forallb p (dropWhile p l) = forallb p l.
Proof.
  induction l as [|x l IH]; simpl; [reflexivity|].
  destruct (p x) eqn:E; simpl; [exact IH | now rewrite E].
Qed.

Lemma forallb_rev {A} (p : A -> bool) l : forallb p (rev l) = forallb p l.
Proof.
  induction l as [|x l IH]; simpl; [reflexivity|].
  rewrite forallb_app, IH. simpl. rewrite andb_true_r. apply andb_comm.
Qed.

(** [!query.trim()] holds exactly for a query made of white space and
    line terminators only, the empty one included. *)
Lemma trim_blank (q : jsstring) :
  negb (truthy (trim q)) = forallb isTrimSpace q.
Proof.
  rewrite <- forallb_dropWhile, <- forallb_rev. unfold trim.
  destruct (dropWhile isTrimSpace (rev (dropWhile isTrimSpace q)))
    as [|c l] eqn:E.
  - apply dropWhile_nil in E. simpl. now rewrite E.
  - assert (H : forallb isTrimSpace (rev (dropWhile isTrimSpace q)) <> true).
    { intros H. apply dropWhile_nil in H. congruence. }
    apply not_true_is_false in H. rewrite H.
    destruct (rev (c :: l)) eqn:Er; [|reflexivity].
    apply (f_equal (@rev N)) in Er. rewrite rev_involutive in Er. discriminate.
Qed.

(** *** Removal of duplicates *)

Lemma findIndex_from_first {A} (p : A -> bool) pre x l i :
  existsb p pre = false -> p x = true ->
  findIndex_from p (pre ++ x :: l) i = (i + Z.of_nat (List.length pre))%Z.
Proof.
  revert i. induction pre as [|y pre IH]; intros i Hpre Hx; simpl in *.
  - rewrite Hx. lia.
  - apply orb_false_iff in Hpre. destruct Hpre as [Hy Hpre]. rewrite Hy.
    rewrite IH by assumption. lia.
Qed.

Lemma findIndex_from_earlier {A} (p : A -> bool) pre l i :
  existsb p pre = true ->
  (findIndex_from p (pre ++ l) i < i + Z.of_nat (List.length pre))%Z.
Proof.
  revert i. induction pre as [|y pre IH]; intros i Hpre; simpl in *.
  - discriminate.
  - destruct (p y); [lia|]. simpl in Hpre. specialize (IH (i + 1)%Z Hpre). lia.
Qed.

Lemma existsb_same_id (x : Note.t) (pre : list Note.t) (seen : list Id) :
  (forall i, In i seen <-> In i (map Note._id pre)) ->
  existsb (fun n => Nat.eqb (Note._id n) (Note._id x)) pre
  = existsb (Nat.eqb (Note._id x)) seen.
Proof.
  intros Hseen. apply eq_true_iff_eq. rewrite !existsb_exists. split.
  - intros [n [Hn E]]. apply Nat.eqb_eq in E. exists (Note._id x).
    split; [|apply Nat.eqb_refl]. apply Hseen. rewrite <- E. now apply in_map.
  - intros [i [Hi E]]. apply Nat.eqb_eq in E. subst i.
    apply Hseen, in_map_iff in Hi. destruct Hi as [n [E Hn]].
    exists n. split; [exact Hn | now apply Nat.eqb_eq].
Qed.

(** The [filter]/[findIndex] idiom of [searchNotes] keeps of every
    identifier its first occurrence. *)
Lemma filter_findIndex_dedup (self l pre : list Note.t) (seen : list Id) :
  self = pre ++ l ->
  (forall i, In i seen <-> In i (map Note._id pre)) ->
  filter_from
    (fun note index =>
       Z.eqb index
         (findIndex (fun n => Nat.eqb (Note._id n) (Note._id note)) self))
    l (Z.of_nat (List.length pre))
  = dedup_first seen l.
Proof.
  revert pre seen. induction l as [|x l IH]; intros pre seen Hself Hseen;
    [reflexivity|].
  cbn [filter_from dedup_first].
  rewrite <- (existsb_same_id x pre seen Hseen).
  assert (Hnext : (Z.of_nat (List.length pre) + 1)%Z
                  = Z.of_nat (List.length (pre ++ [x])))
    by (rewrite length_app; simpl; lia).
  assert (Hself' : self = (pre ++ [x]) ++ l)
    by (now rewrite <- app_assoc).
  unfold findIndex. rewrite Hself at 1.
  destruct (existsb (fun n => Nat.eqb (Note._id n) (Note._id x)) pre) eqn:E.
  - pose proof (findIndex_from_earlier _ pre (x :: l) 0 E) as Hlt.
    destruct (Z.eqb_spec (Z.of_nat (List.length pre))
                (findIndex_from (fun n => Nat.eqb (Note._id n) (Note._id x))
                   (pre ++ x :: l) 0)); [lia|].
    rewrite Hnext. apply IH; [exact Hself'|].
    intros i. rewrite map_app, in_app_iff, Hseen. simpl.
    split; [tauto|]. intros [H|[H|[]]]; [exact H|]. subst i.
    apply existsb_exists in E. destruct E as [m [Hm Em]].
    apply Nat.eqb_eq in Em. rewrite <- Em. now apply in_map.
  - rewrite findIndex_from_first by (assumption || apply Nat.eqb_refl).
    rewrite Z.add_0_l, Z.eqb_refl. f_equal.
    rewrite Hnext. apply IH; [exact Hself'|].
    intros i. rewrite map_app, in_app_iff. simpl. rewrite Hseen. tauto.
Qed.

Lemma filter_index_dedup (l : list Note.t) :
  filter_index
    (fun note index self =>
       Z.eqb index
         (findIndex (fun n => Nat.eqb (Note._id n) (Note._id note)) self)) l
  = dedup_first [] l.
Proof.
  unfold filter_index.
  apply (@filter_findIndex_dedup l l [] []); [reflexivity | intros; tauto].
Qed.

Lemma dedup_first_In seen l n :
  In n (dedup_first seen l) -> In n l /\ ~ In (Note._id n) seen.
Proof.
  revert seen. induction l as [|x l IH]; intros seen; simpl; [tauto|].
  destruct (existsb (Nat.eqb (Note._id x)) seen) eqn:E.
  - intros H. apply IH in H. tauto.
  - intros [Ex|H].
    + subst n. split; [now left|]. intros Hin.
      apply not_true_iff_false in E. apply E. apply existsb_exists.
      exists (Note._id x). split; [exact Hin | apply Nat.eqb_refl].
    + apply IH in H. simpl in H. tauto.
Qed.



Lemma firstn_In {A} (k : nat) (l : list A) x : In x (firstn k l) -> In x l.
Proof.
  intros H. rewrite <- (firstn_skipn k l). apply in_or_app. now left.
Qed.




Section SearchProperties.

Variable search_content : jsstring -> SearchFilter -> list Note.t -> list Note.t.

Lemma searchNotes_blank (R : option Id) (Q : jsstring) (db : DB) :
  forallb isTrimSpace Q = true -> searchNotes search_content R Q db = Ok [].
Proof.
  intros HQ. unfold searchNotes. now rewrite trim_blank, HQ.
Qed.

Lemma searchNotes_anonymous (Q : jsstring) (db : DB) :
  forallb isTrimSpace Q = false ->
  searchNotes search_content None Q db =
  Ok (map (fun n =>
             NoteWithAuthor.mk n
               (authorName_or (find_by User._id (Note.authorId n) (users db))
                              (str "Anonymous")))
          (publicResults search_content Q db)).
Proof.
  intros HQ. unfold searchNotes. rewrite trim_blank, HQ. run.
  unfold search. simpl. erewrite mapQ_reads; [reflexivity|].
  intros n _. reflexivity.
Qed.

Lemma searchNotes_signed_in (R : Id) (Q : jsstring) (db : DB) :
  forallb isTrimSpace Q = false ->
  searchNotes search_content (Some R) Q db =
  Ok (firstn 10
        (map (search_label R db)
             (dedup_first [] (publicResults search_content Q db ++ userResults search_content R Q db)))).
Proof.
  intros HQ. unfold searchNotes. rewrite trim_blank, HQ. run.
  unfold search. simpl. fold (publicResults search_content Q db) (userResults search_content R Q db).
  rewrite filter_index_dedup.
  erewrite mapQ_reads; [reflexivity|].
  intros n _. reflexivity.
Qed.


(** The index answers with notes of the table that pass the equality
    filter of the query. *)
Hypothesis search_content_sound : forall text f tbl n,
  In n (search_content text f tbl) -> In n tbl /\ filter_holds f n = true.

Lemma publicResults_public Q db n :
  In n (publicResults search_content Q db) -> In n (notes db) /\ Note.isPublic n = true.
Proof.
  intros Hn. apply firstn_In, search_content_sound in Hn.
  destruct Hn as [Hin Hf]. simpl in Hf. split; [exact Hin|].
  now destruct (Note.isPublic n).
Qed.

Lemma userResults_own R Q db n :
  In n (userResults search_content R Q db) -> In n (notes db) /\ Note.authorId n = R.
Proof.
  intros Hn. apply firstn_In, search_content_sound in Hn.
  destruct Hn as [Hin Hf]. simpl in Hf. split; [exact Hin|].
  now apply Nat.eqb_eq.
Qed.

(** C10. [searchNotes] always returns, and every note it returns is a
    note of the store that is public or authored by the requester.  So
    a private note of someone else is never returned, shared with the
    requester or not, and an anonymous requester gets public notes
    only. *)
Theorem searchNotes_scope (R : option Id) (Q : jsstring) (db : DB) :
  exists results,
    searchNotes search_content R Q db = Ok results
    /\ Forall (fun v =>
                 In (NoteWithAuthor.note v) (notes db)
                 /\ (Note.isPublic (NoteWithAuthor.note v) = true
                     \/ R = Some (Note.authorId (NoteWithAuthor.note v))))
              results
    /\ (forall n, Note.isPublic n = false -> R <> Some (Note.authorId n) ->
                  ~ In n (map NoteWithAuthor.note results))
    /\ (R = None ->
        Forall (fun v => Note.isPublic (NoteWithAuthor.note v) = true) results).
Proof.
  assert (Hmain : exists results,
    searchNotes search_content R Q db = Ok results
    /\ Forall (fun v =>
                 In (NoteWithAuthor.note v) (notes db)
                 /\ (Note.isPublic (NoteWithAuthor.note v) = true
                     \/ R = Some (Note.authorId (NoteWithAuthor.note v))))
              results).
  { destruct (forallb isTrimSpace Q) eqn:HQ.
    - exists []. split; [now apply searchNotes_blank | constructor].
    - destruct R as [u|].
      + eexists. split; [now apply searchNotes_signed_in|].
        apply Forall_forall. intros v Hv. apply firstn_In in Hv.
        apply in_map_iff in Hv. destruct Hv as [n [<- Hn]]. simpl.
        apply dedup_first_In in Hn. destruct Hn as [Hn _].
        apply in_app_iff in Hn. destruct Hn as [Hn|Hn].
        * apply publicResults_public in Hn. tauto.
        * apply userResults_own in Hn. destruct Hn as [Hin <-]. auto.
      + eexists. split; [now apply searchNotes_anonymous|].
        apply Forall_forall. intros v Hv.
        apply in_map_iff in Hv. destruct Hv as [n [<- Hn]]. simpl.
        apply publicResults_public in Hn. tauto. }
  destruct Hmain as [results [Hrun Hall]]. exists results.
  split; [exact Hrun|]. split; [exact Hall|]. split.
  - intros n Hpriv Hown Hin. apply in_map_iff in Hin.
    destruct Hin as [v [<- Hv]]. rewrite Forall_forall in Hall.
    destruct (Hall v Hv) as [_ [H|H]]; congruence.
  - intros ->. eapply Forall_impl; [|exact Hall]. simpl.
    intros v [_ [H|H]]; [exact H | discriminate].
Qed.

End SearchProperties.

(** ** The mutations keep the store's invariants *)

Lemma Forall_filter_keep {A} (P : A -> Prop) (f : A -> bool) l :
  Forall P l -> Forall P (filter f l).
Proof.
  rewrite !Forall_forall. intros H x Hx. apply filter_In in Hx. apply H. tauto.
Qed.

Lemma WF_createNote (db : DB) R now t c p :
  WF db -> WF (snd (createNote R now t c p db)).
Proof.
  intros H. destruct R as [u|]; [|exact H].
  apply (WF_insert_note t (js_or c []) (nullish p true) u now H).
Qed.

Lemma WF_updateNote (db : DB) R now N t c p :
  WF db -> WF (snd (updateNote R now N t c p db)).
Proof.
  intros H. destruct R as [u|]; [|exact H].
  destruct (find_by Note._id N (notes db)) as [note|] eqn:Hget.
  - destruct (updateNote_run db u now N t c p Hget) as [upd [_ Hrun]].
    rewrite Hrun.
    destruct (Nat.eqb (Note.authorId note) u); [now apply WF_patch_note|].
    destruct (by_note_and_user N u db) as [|s [|s' l]]; try exact H.
    destruct (Permission_eqb (Share.permission s) write);
      [now apply WF_patch_note | exact H].
  - unfold updateNote. run. unfold get_note. now rewrite Hget.
Qed.

Lemma WF_shareNote (db : DB) R N email p :
  WF db -> WF (snd (shareNote R N email p db)).
Proof.
  intros H. destruct R as [O|]; [|exact H].
  destruct (fst (shareNote (Some O) N email p db)) as [[]|e] eqn:Hr.
  - destruct (@shareNote_success db O N email p H Hr) as [U [s Hs]].
    apply Hs.
  - now rewrite (shareNote_fails_unchanged _ _ _ _ _ Hr).
Qed.

Lemma WF_deleteNote (db : DB) R N :
  WF db -> WF (snd (deleteNote R N db)).
Proof.
  intros H. destruct R as [u|]; [|exact H].
  destruct (find_by Note._id N (notes db)) as [note|] eqn:Hget;
    [|unfold deleteNote; run; unfold get_note; now rewrite Hget].
  destruct (Nat.eqb_spec (Note.authorId note) u) as [E|E];
    [|unfold deleteNote; run; unfold get_note; rewrite Hget;
      destruct (Nat.eqb_spec (Note.authorId note) u);
      [contradiction | exact H]].
  subst u. rewrite (@deleteNote_run db N note (wf_share_ids H) Hget).
  destruct H as [Hnf Hsf Hni Hsi Hp]. constructor; simpl.
  - unfold delete_by. now apply Forall_filter_keep.
  - now apply Forall_filter_keep.
  - now apply NoDup_ids_filter.
  - now apply NoDup_ids_filter.
  - intros n u. unfold by_note_and_user. simpl. rewrite filter_twice.
    rewrite (filter_ext _ (fun s =>
               (Nat.eqb (Share.noteId s) n && Nat.eqb (Share.sharedWithId s) u)
               && negb (Nat.eqb (Share.noteId s) N)))
      by (intros s; apply andb_comm).
    rewrite <- filter_twice.
    etransitivity; [apply filter_length_le | apply Hp].
Qed.

(** ** The example store *)

Lemma WF_bind A B (c : Mutation A) (k : A -> Mutation B) (db : DB) :
  WF (snd (c db)) -> (forall a d, WF d -> WF (snd (k a d))) ->
  WF (snd ((x <- c ;; k x) db)).
Proof.
  intros Hc Hk. unfold bind, Mutation_Monad, bindM.
  destruct (c db) as [[a|e] d]; [now apply Hk | exact Hc].
Qed.

Lemma WF_two_users : WF two_users.
Proof.
  constructor; simpl; try constructor. unfold by_note_and_user. simpl. lia.
Qed.

Lemma WF_demo_db : WF demo_db.
Proof.
  change (WF (snd (demo_script two_users))). unfold demo_script.
  apply WF_bind; [apply WF_createNote, WF_two_users|]. intros pub d1 H1.
  apply WF_bind; [now apply WF_shareNote|]. intros _ d2 H2.
  apply WF_bind; [now apply WF_createNote|]. intros priv d3 H3.
  now apply WF_shareNote.
Qed.

Lemma match_all_sound text f tbl n :
  In n (match_all text f tbl) -> In n tbl /\ filter_holds f n = true.
Proof.
  unfold match_all. apply filter_In.
Qed.

(** C1.  [updateNote] should throw "Not authorized to edit this note"
    exactly when [getNote] does not grant [canEdit].  On the example
    store the two checks of the code disagree: user [1] holds a [write]
    share on the public note [2] of user [0]; [getNote] answers from its
    public branch with [canEdit = false], never looking at the share,
    while [updateNote] by user [1] finds the share and succeeds.  The
    share branch of [getNote] does honour that share: once the author has
    made the note private, [getNote] reports [canEdit = true] for the
    same user and the same share. *)
Lemma updateNote_canEdit_divergence :
  get_note 2 demo_db = Ok (Some demo_public_note)
  /\ by_note_and_user 2 1 demo_db = [Share.mk 3 2 1 write 0]
  /\ resolver_canEdit 1 2 demo_db = false
  /\ fst (updateNote (Some 1) 7 2 (Some (str "x")) None None demo_db) = Ok tt
  /\ ~ (fst (updateNote (Some 1) 7 2 (Some (str "x")) None None demo_db)
        = Err NotAuthorizedEdit
        <-> resolver_canEdit 1 2 demo_db = false)
  /\ resolver_canEdit 1 2
       (snd (updateNote (Some 0) 8 2 None None (Some false) demo_db)) = true.
Proof.
  repeat split; try reflexivity.
  intros [_ H]. specialize (H eq_refl). discriminate H.
Qed.

Lemma updateNote_authorization_witness :
  get_note 4 demo_db = Ok (Some demo_private_note)
  /\ List.length (by_note_and_user 4 1 demo_db) <= 1
  /\ fst (updateNote (Some 1) 7 4 (Some (str "x")) None None demo_db)
     = Err NotAuthorizedEdit
  /\ snd (updateNote (Some 1) 7 4 (Some (str "x")) None None demo_db) = demo_db
  /\ resolver_canEdit 1 4 demo_db = false.
Proof.
  assert (H1 : get_note 4 demo_db = Ok (Some demo_private_note)) by reflexivity.
  assert (H2 : List.length (by_note_and_user 4 1 demo_db) <= 1)
    by (vm_compute; lia).
  destruct (@updateNote_authorization demo_db 1 7 4 (Some (str "x")) None None
              demo_private_note H1 H2) as [Hno [_ [_ [Hsame Hres]]]].
  split; [exact H1|]. split; [exact H2|].
  split; [apply Hno; reflexivity|].
  split; [apply (Hsame NotAuthorizedEdit); apply Hno; reflexivity|].
  rewrite Hres; reflexivity.
Defined.

Lemma getNote_public_witness :
  get_note 2 demo_db = Ok (Some demo_public_note)
  /\ Note.isPublic demo_public_note = true
  /\ exists v,
       getNote (Some 1) 2 demo_db = Ok (Some v)
       /\ NoteWithAccess.note v = demo_public_note
       /\ NoteWithAccess.authorName v =
            authorName_or
              (find_by User._id (Note.authorId demo_public_note) (users demo_db))
              (str "Anonymous")
       /\ (NoteWithAccess.canEdit v = true
           <-> Some 1 = Some (Note.authorId demo_public_note)).
Proof.
  split; [reflexivity|]. split; [reflexivity|].
  apply (@getNote_public demo_db (Some 1) 2 demo_public_note); reflexivity.
Defined.

Lemma getNote_private_hidden_witness :
  get_note 4 demo_db = Ok (Some demo_private_note)
  /\ Note.isPublic demo_private_note = false
  /\ Some 7 <> Some (Note.authorId demo_private_note)
  /\ getNote (Some 7) 4 demo_db = Ok None
  /\ getNote (Some 7) 4 two_users = getNote (Some 7) 4 demo_db.
Proof.
  assert (H3 : Some 7 <> Some (Note.authorId demo_private_note))
    by discriminate.
  assert (H4 : forall u, Some 7 = Some u -> by_note_and_user 4 u demo_db = [])
    by (intros u E; injection E as <-; reflexivity).
  destruct (@getNote_private_hidden demo_db (Some 7) 4 demo_private_note
              eq_refl eq_refl H3 H4) as [Hnull Hsame].
  split; [reflexivity|]. split; [reflexivity|]. split; [exact H3|].
  split; [exact Hnull|]. apply Hsame. reflexivity.
Defined.

Lemma updateNote_effect_witness :
  get_note 2 demo_db = Ok (Some demo_public_note)
  /\ fst (updateNote (Some 1) 7 2 (Some (str "x")) None (Some false) demo_db)
     = Ok tt
  /\ get_note 2 (snd (updateNote (Some 1) 7 2 (Some (str "x")) None (Some false)
                        demo_db))
     = Ok (Some (Note.mk 2 (str "x") [] true 0 (Some 1) 7)).
Proof.
  split; [reflexivity|]. split; [reflexivity|].
  apply (@updateNote_effect demo_db 1 7 2 (Some (str "x")) None (Some false)
           demo_public_note eq_refl eq_refl).
Defined.

Lemma deleteNote_cascade_witness :
  get_note 4 demo_db = Ok (Some demo_private_note)
  /\ fst (deleteNote (Some 0) 4 demo_db) = Ok tt
  /\ deleteNote (Some 1) 4 demo_db = (Err NotAuthorizedDelete, demo_db)
  /\ by_note 4 (snd (deleteNote (Some 0) 4 demo_db)) = []
  /\ get_note 4 (snd (deleteNote (Some 0) 4 demo_db)) = Ok None.
Proof.
  pose proof (@deleteNote_cascade demo_db (Some 0) 4 demo_private_note
                WF_demo_db eq_refl) as [Hok [_ Hdone]].
  pose proof (@deleteNote_cascade demo_db (Some 1) 4 demo_private_note
                WF_demo_db eq_refl) as [_ [Hno _]].
  split; [reflexivity|]. split; [apply Hok; reflexivity|].
  split; [apply (Hno 1 eq_refl); discriminate|].
  split; apply (Hdone eq_refl).
Defined.

Lemma shareNote_upsert_witness :
  fst (shareSeq 0 2 (str "b@x.org") [read; write; read] demo_db) = Ok tt
  /\ exists U s,
       by_email (str "b@x.org") demo_db = [U] /\ User._id U <> 0
       /\ by_note_and_user 2 (User._id U)
            (snd (shareSeq 0 2 (str "b@x.org") [read; write; read] demo_db))
          = [s]
       /\ Share.permission s = read.
Proof.
  split; [reflexivity|].
  destruct (@shareNote_upsert demo_db 0 2 (str "b@x.org") [read; write; read]
              write WF_demo_db ltac:(discriminate) eq_refl)
    as [U [s [H1 [H2 [H3 [H4 _]]]]]].
  exists U, s. repeat split; assumption.
Defined.



Lemma shareNote_failures_witness :
  get_note 4 demo_db = Ok (Some demo_private_note)
  /\ shareNote (Some 1) 4 (str "a@x.org") write demo_db
     = (Err NotAuthorizedShare, demo_db)
  /\ shareNote (Some 0) 4 (str "a@x.org") read demo_db
     = (Err CannotShareWithYourself, demo_db).
Proof.
  destruct (@shareNote_failures demo_db 4 (str "a@x.org") demo_private_note
              eq_refl) as [Hauth [_ [Hself _]]].
  split; [reflexivity|].
  split; [apply Hauth; discriminate | apply (Hself alice); reflexivity].
Defined.

Lemma createNote_spec_witness :
  Forall (fun n => Note._id n < nextId demo_db) (notes demo_db)
  /\ createNote None 9 (str "t") None None demo_db
     = (Err NotAuthenticated, demo_db)
  /\ exists noteId db',
       createNote (Some 1) 9 (str "t") None None demo_db = (Ok noteId, db')
       /\ get_note noteId db'
          = Ok (Some (Note.mk noteId (str "t") [] true 1 None 9)).
Proof.
  pose proof (wf_note_fresh WF_demo_db) as Hfresh.
  destruct (@createNote_spec demo_db 1 9 (str "t") None None Hfresh)
    as [[Hanon _] [_ Hdefault]].
  split; [exact Hfresh|]. split; [exact Hanon | exact Hdefault].
Defined.

Lemma searchNotes_scope_witness :
  (forall text f tbl n,
      In n (match_all text f tbl) -> In n tbl /\ filter_holds f n = true)
  /\ exists results,
       searchNotes match_all (Some 1) (str "a") demo_db = Ok results
       /\ Forall (fun v =>
                    In (NoteWithAuthor.note v) (notes demo_db)
                    /\ (Note.isPublic (NoteWithAuthor.note v) = true
                        \/ Some 1 = Some (Note.authorId (NoteWithAuthor.note v))))
                 results
       /\ ~ In demo_private_note (map NoteWithAuthor.note results).
Proof.
  split; [exact match_all_sound|].
  destruct (@searchNotes_scope match_all match_all_sound (Some 1) (str "a")
              demo_db) as [results [Hrun [Hall [Hpriv _]]]].
  exists results. split; [exact Hrun|]. split; [exact Hall|].
  apply Hpriv; [reflexivity | discriminate].
Defined.

(** * Further properties *)

(** ** The store after a mutation *)

Lemma updateNote_store (db : DB) (R : option Id) now N t c p :
  (exists e, fst (updateNote R now N t c p db) = Err e
             /\ snd (updateNote R now N t c p db) = db)
  \/ (fst (updateNote R now N t c p db) = Ok tt
      /\ exists u note f,
           R = Some u
           /\ find_by Note._id N (notes db) = Some note
           /\ (forall n, Note._id (f n) = Note._id n
                         /\ Note.authorId (f n) = Note.authorId n)
           /\ snd (updateNote R now N t c p db) =
              mkDB (users db) (patch_by Note._id N f (notes db))
                   (noteShares db) (nextId db)).
Proof.
  destruct R as [u|]; [|left; eexists; split; reflexivity].
  destruct (find_by Note._id N (notes db)) as [note|] eqn:Hget.
  - destruct (updateNote_run db u now N t c p Hget) as [upd [Hupd Hrun]].
    rewrite Hrun, (@patch_note_run db N upd note Hget).
    assert (Hdone :
      (exists e, fst (Ok tt, mkDB (users db)
                                (patch_by Note._id N (apply_updates upd) (notes db))
                                (noteShares db) (nextId db)) = Err e
                 /\ snd (Ok tt, mkDB (users db)
                                  (patch_by Note._id N (apply_updates upd) (notes db))
                                  (noteShares db) (nextId db)) = db)
      \/ (fst (Ok tt, mkDB (users db)
                        (patch_by Note._id N (apply_updates upd) (notes db))
                        (noteShares db) (nextId db)) = Ok tt
          /\ exists u0 note0 f,
               Some u = Some u0
               /\ Some note = Some note0
               /\ (forall n, Note._id (f n) = Note._id n
                             /\ Note.authorId (f n) = Note.authorId n)
               /\ snd (Ok tt, mkDB (users db)
                                (patch_by Note._id N (apply_updates upd) (notes db))
                                (noteShares db) (nextId db)) =
                  mkDB (users db) (patch_by Note._id N f (notes db))
                       (noteShares db) (nextId db))).
    { right. split; [reflexivity|].
      exists u, note, (apply_updates upd). repeat split. }
    destruct (Nat.eqb (Note.authorId note) u); [exact Hdone|].
    destruct (by_note_and_user N u db) as [|s [|s' l]];
      try (left; eexists; split; reflexivity).
    destruct (Permission_eqb (Share.permission s) write);
      [exact Hdone | left; eexists; split; reflexivity].
  - left. exists NoteNotFound. unfold updateNote. run. unfold get_note.
    rewrite Hget. split; reflexivity.
Qed.

Lemma deleteNote_store (db : DB) (R : option Id) N :
  NoDup (map Share._id (noteShares db)) ->
  (exists e, deleteNote R N db = (Err e, db) /\ e <> DocMissing /\ e <> NotUnique)
  \/ (exists note,
        find_by Note._id N (notes db) = Some note
        /\ R = Some (Note.authorId note)
        /\ deleteNote R N db =
           (Ok tt,
            mkDB (users db) (delete_by Note._id N (notes db))
                 (filter (fun s => negb (Nat.eqb (Share.noteId s) N))
                         (noteShares db))
                 (nextId db))).
Proof.
  intros Hnd.
  destruct R as [u|];
    [|left; exists NotAuthenticated; repeat split; discriminate].
  destruct (find_by Note._id N (notes db)) as [note|] eqn:Hget.
  - destruct (Nat.eqb_spec (Note.authorId note) u) as [E|E].
    + right. exists note. subst u. split; [reflexivity|].
      split; [reflexivity|]. now apply deleteNote_run.
    + left. exists NotAuthorizedDelete. split; [|split; discriminate].
      unfold deleteNote. run. unfold get_note. rewrite Hget.
      destruct (Nat.eqb_spec (Note.authorId note) u);
        [contradiction | reflexivity].
  - left. exists NoteNotFound. split; [|split; discriminate].
    unfold deleteNote. run. unfold get_note. now rewrite Hget.
Qed.

Lemma shareNote_store (db : DB) (R : option Id) N email p :
  (exists e, fst (shareNote R N email p db) = Err e
             /\ snd (shareNote R N email p db) = db)
  \/ (exists O note U,
        R = Some O
        /\ find_by Note._id N (notes db) = Some note
        /\ Note.authorId note = O
        /\ by_email email db = [U] /\ User._id U <> O
        /\ ((by_note_and_user N (User._id U) db = []
             /\ shareNote R N email p db =
                (Ok tt,
                 mkDB (users db) (notes db)
                      (noteShares db ++
                         [Share.mk (nextId db) N (User._id U) p O])
                      (S (nextId db))))
            \/ (exists s,
                  by_note_and_user N (User._id U) db = [s]
                  /\ shareNote R N email p db =
                     (Ok tt,
                      mkDB (users db) (notes db)
                           (patch_by Share._id (Share._id s) (set_permission p)
                                     (noteShares db))
                           (nextId db))))).
Proof.
  destruct (fst (shareNote R N email p db)) as [[]|e] eqn:Hr;
    [|left; exists e; split;
      [reflexivity | now apply (shareNote_fails_unchanged _ _ _ _ _ Hr)]].
  right. destruct R as [O|]; [|discriminate].
  destruct (find_by Note._id N (notes db)) as [note|] eqn:Hget;
    [|exfalso; revert Hr; unfold shareNote; run; unfold get_note;
      rewrite Hget; discriminate].
  destruct (Nat.eqb_spec (Note.authorId note) O) as [Hown|Hown];
    [|exfalso; revert Hr; unfold shareNote; run; unfold get_note;
      rewrite Hget; destruct (Nat.eqb_spec (Note.authorId note) O);
      [contradiction | discriminate]].
  rewrite (@shareNote_run db O N email p note Hget Hown) in *.
  destruct (by_email email db) as [|U [|U' l]] eqn:He; try discriminate.
  destruct (Nat.eqb_spec (User._id U) O) as [HU|HU]; [discriminate|].
  exists O, note, U. repeat (split; [reflexivity || assumption|]).
  destruct (by_note_and_user N (User._id U) db) as [|s [|s' l]] eqn:Hs;
    try discriminate.
  - left. split; reflexivity.
  - right. exists s. split; [reflexivity|].
    assert (Hin : In s (noteShares db)).
    { apply (by_note_and_user_In db N (User._id U)). rewrite Hs. now left. }
    unfold patch_share. now rewrite (in_has_id Share._id _ _ Hin).
Qed.

(** ** Invariants over runs of calls *)

Lemma WF_run_call (c : Call) (db : DB) : WF db -> WF (snd (run_call c db)).
Proof.
  intros H. destruct c; simpl.
  - apply WF_bind; [now apply WF_createNote | auto].
  - now apply WF_updateNote.
  - now apply WF_deleteNote.
  - now apply WF_shareNote.
Qed.

Lemma WF_run_calls (cs : list Call) : forall db, WF db -> WF (run_calls cs db).
Proof.
  induction cs as [|c cs IH]; intros db H; simpl; [exact H|].
  apply IH. now apply WF_run_call.
Qed.

Lemma getNote_total (db : DB) (R : option Id) (N : Id) :
  WF db -> exists r, getNote R N db = Ok r.
Proof.
  intros Hwf. unfold getNote. run. unfold get_note.
  destruct (find_by Note._id N (notes db)) as [note|]; [|eauto].
  destruct (Note.isPublic note); [eauto|].
  destruct R as [u|]; [|eauto].
  destruct (Nat.eqb (Note.authorId note) u); [eauto|].
  unfold query_unique. pose proof (wf_pairs Hwf N u) as Hlen.
  destruct (by_note_and_user N u db) as [|s [|s' l]]; simpl in *;
    [eauto | eauto | lia].
Qed.

(** X9. Whatever calls are made, by whomever and whether they succeed or
    throw, a store that starts with its invariants keeps them: no (note,
    user) pair ever has two shares, and so [getNote] never throws. *)
Theorem run_calls_invariant (cs : list Call) (db : DB) :
  WF db ->
  WF (run_calls cs db)
  /\ (forall n u, List.length (by_note_and_user n u (run_calls cs db)) <= 1)
  /\ (forall R N, exists r, getNote R N (run_calls cs db) = Ok r).
Proof.
  intros H. pose proof (WF_run_calls cs H) as H'.
  split; [exact H'|]. split; [apply H'|].
  intros R N. now apply getNote_total.
Qed.

Lemma find_by_app_some {A} (id_of : A -> Id) i l l' d :
  find_by id_of i l = Some d -> find_by id_of i (l ++ l') = Some d.
Proof.
  unfold find_by. induction l as [|x l IH]; simpl; [discriminate|].
  destruct (Nat.eqb (id_of x) i); auto.
Qed.

Lemma find_by_delete_by_other {A} (id_of : A -> Id) i j l :
  i <> j -> find_by id_of i (delete_by id_of j l) = find_by id_of i l.
Proof.
  intros Hij. unfold find_by, delete_by.
  induction l as [|x l IH]; simpl; [reflexivity|].
  destruct (Nat.eqb_spec (id_of x) j) as [E|E]; simpl.
  - destruct (Nat.eqb_spec (id_of x) i); [congruence | exact IH].
  - destruct (Nat.eqb (id_of x) i); [reflexivity | exact IH].
Qed.

Lemma share_ok_notes (db db' : DB) (s : Share.t) :
  (forall note, find_by Note._id (Share.noteId s) (notes db) = Some note ->
     exists note', find_by Note._id (Share.noteId s) (notes db') = Some note'
                   /\ Note.authorId note' = Note.authorId note) ->
  share_ok db s -> share_ok db' s.
Proof.
  intros Hkeep [note [Hget [Hby Hself]]].
  destruct (Hkeep note Hget) as [note' [Hget' Hauth]].
  exists note'. repeat split; congruence.
Qed.

Lemma SharesOK_createNote (db : DB) R now t c p :
  SharesOK db -> SharesOK (snd (createNote R now t c p db)).
Proof.
  intros H. destruct R as [u|]; [|exact H]. simpl.
  unfold SharesOK in *. simpl. eapply Forall_impl; [|exact H].
  intros s. apply share_ok_notes. intros note Hget. exists note.
  split; [now apply find_by_app_some | reflexivity].
Qed.

Lemma SharesOK_updateNote (db : DB) R now N t c p :
  SharesOK db -> SharesOK (snd (updateNote R now N t c p db)).
Proof.
  intros H.
  destruct (updateNote_store db R now N t c p)
    as [[e [_ Hsame]]|[_ [u [note [f [_ [Hget [Hf Hdb]]]]]]]].
  - now rewrite Hsame.
  - rewrite Hdb. unfold SharesOK in *. simpl.
    eapply Forall_impl; [|exact H].
    intros s. apply share_ok_notes. simpl. intros n Hn.
    rewrite (find_by_patch_by Note._id N (Share.noteId s) f (notes db))
      by (intros d; apply Hf).
    destruct (Nat.eqb N (Share.noteId s)).
    + rewrite Hn. simpl. exists (f n). split; [reflexivity | apply Hf].
    + exists n. auto.
Qed.

Lemma SharesOK_deleteNote (db : DB) R N :
  WF db -> SharesOK db -> SharesOK (snd (deleteNote R N db)).
Proof.
  intros Hwf H.
  destruct (@deleteNote_store db R N (wf_share_ids Hwf))
    as [[e [Hrun _]]|[note [Hget [HR Hrun]]]]; rewrite Hrun; [exact H|].
  unfold SharesOK in *. simpl. rewrite Forall_forall in *.
  intros s Hs. apply filter_In in Hs. destruct Hs as [Hs Hne].
  apply negb_true_iff, Nat.eqb_neq in Hne.
  apply (@share_ok_notes db _ s); [|now apply H]. simpl.
  intros n Hn. exists n. split; [|reflexivity].
  now rewrite find_by_delete_by_other.
Qed.

Lemma SharesOK_shareNote (db : DB) R N email p :
  SharesOK db -> SharesOK (snd (shareNote R N email p db)).
Proof.
  intros H.
  destruct (shareNote_store db R N email p)
    as [[e [_ Hsame]]
       |[O [note [U [_ [Hget [Hown [_ [HU [[_ Hrun]|[s [_ Hrun]]]]]]]]]]]].
  - now rewrite Hsame.
  - rewrite Hrun. unfold SharesOK in *. simpl. apply Forall_app. split.
    + exact H.
    + constructor; [|constructor]. exists note. simpl. auto.
  - rewrite Hrun. unfold SharesOK in *. simpl. unfold patch_by.
    apply Forall_map. eapply Forall_impl; [|exact H].
    intros d Hd. destruct (Nat.eqb (Share._id d) (Share._id s)); exact Hd.
Qed.

Lemma SharesOK_run_call (c : Call) (db : DB) :
  WF db -> SharesOK db -> SharesOK (snd (run_call c db)).
Proof.
  intros Hwf H. destruct c; simpl.
  - pose proof (SharesOK_createNote userId now title content isPublic H) as H'.
    unfold bind, Mutation_Monad, bindM.
    destruct (createNote userId now title content isPublic db) as [[a|e] d];
      exact H'.
  - now apply SharesOK_updateNote.
  - now apply SharesOK_deleteNote.
  - now apply SharesOK_shareNote.
Qed.

Lemma SharesOK_run_calls (cs : list Call) : forall db,
  WF db -> SharesOK db -> SharesOK (run_calls cs db).
Proof.
  induction cs as [|c cs IH]; intros db Hwf H; simpl; [exact H|].
  apply IH; [now apply WF_run_call | now apply SharesOK_run_call].
Qed.

(** X10. Shares stay attached to their notes.  After any run of calls from
    a store that has its invariants and in which every share refers to a
    note of the store, was granted by that note's author and is held by
    someone else, the same is true: the API leaves no orphaned share,
    lets nobody but the author grant one, and never grants one to the
    author. *)
Theorem run_calls_shares_ok (cs : list Call) (db : DB) :
  WF db -> SharesOK db ->
  SharesOK (run_calls cs db)
  /\ forall s, In s (noteShares (run_calls cs db)) ->
       exists note,
         get_note (Share.noteId s) (run_calls cs db) = Ok (Some note)
         /\ Share.sharedBy s = Note.authorId note
         /\ Share.sharedWithId s <> Note.authorId note.
Proof.
  intros Hwf H.
  pose proof (SharesOK_run_calls cs Hwf H) as Hall.
  split; [exact Hall|].
  intros s Hs. unfold SharesOK in Hall. rewrite Forall_forall in Hall.
  destruct (Hall s Hs) as [note [Hget [Hby Hself]]].
  exists note. unfold get_note. rewrite Hget.
  repeat split; congruence.
Qed.

Lemma run_call_create (db : DB) R now t c p :
  snd (run_call (CreateNote R now t c p) db) = snd (createNote R now t c p db)
  /\ (forall e, fst (run_call (CreateNote R now t c p) db) = Err e ->
                R = None /\ e = NotAuthenticated).
Proof.
  destruct R as [u|]; simpl; split; try reflexivity.
  - discriminate.
  - intros e [= <-]. auto.
Qed.

Lemma call_notes (c : Call) (db : DB) :
  WF db ->
  nextId db <= nextId (snd (run_call c db))
  /\ forall N n',
       find_by Note._id N (notes (snd (run_call c db))) = Some n' ->
       (exists n, find_by Note._id N (notes db) = Some n
                  /\ Note.authorId n' = Note.authorId n)
       \/ nextId db <= N.
Proof.
  intros Hwf. destruct c.
  - destruct (run_call_create db userId now title content isPublic) as [-> _].
    destruct userId as [u|]; simpl; [|split; [lia | eauto]].
    split; [lia|]. intros N n' Hn'.
    destruct (find_by Note._id N (notes db)) as [n|] eqn:Hn.
    + left. exists n. rewrite (find_by_app_some _ _ _ _ Hn) in Hn'.
      split; congruence.
    + right. apply find_by_id in Hn'. destruct Hn' as [Hid Hin].
      apply in_app_iff in Hin. destruct Hin as [Hin|[<-|[]]].
      * apply find_by_none in Hn. exfalso. apply Hn. rewrite <- Hid.
        now apply in_map.
      * simpl in Hid. lia.
  - simpl.
    destruct (updateNote_store db userId now noteId title content isPublic)
      as [[e [_ Hsame]]|[_ [u [note [f [_ [Hget [Hf Hdb]]]]]]]].
    + rewrite Hsame. split; [lia | eauto].
    + rewrite Hdb. simpl. split; [lia|]. intros N n'.
      rewrite (find_by_patch_by Note._id noteId N f (notes db))
        by (intros d; apply Hf).
      destruct (Nat.eqb noteId N).
      * destruct (find_by Note._id N (notes db)) as [n|]; simpl;
          [|discriminate].
        intros [= <-]. left. exists n. split; [reflexivity | apply Hf].
      * intros Hn. left. eauto.
  - simpl.
    destruct (@deleteNote_store db userId noteId (wf_share_ids Hwf))
      as [[e [Hrun _]]|[note [Hget [HR Hrun]]]]; rewrite Hrun; simpl.
    + split; [lia | eauto].
    + split; [lia|]. intros N n' Hn'.
      destruct (Nat.eq_dec N noteId) as [E|E].
      * subst N. now rewrite find_by_delete_by in Hn'.
      * rewrite find_by_delete_by_other in Hn' by assumption. left. eauto.
  - simpl.
    destruct (shareNote_store db userId noteId email permission)
      as [[e [_ Hsame]]
         |[O [note [U [_ [_ [_ [_ [_ [[_ Hrun]|[s [_ Hrun]]]]]]]]]]]];
      [rewrite Hsame | rewrite Hrun | rewrite Hrun]; simpl;
      (split; [lia | eauto]).
Qed.

(** X12. A note keeps its author, and a note's identifier is never used
    again.  If an identifier that the store has already allotted names a
    note after a run of calls, it named a note before the run, with the
    same author: no call changes [authorId], and once a note is deleted
    nothing is ever found under its identifier. *)
Theorem run_calls_author_kept (cs : list Call) (db : DB) (N : Id) (n' : Note.t) :
  WF db ->
  N < nextId db ->
  get_note N (run_calls cs db) = Ok (Some n') ->
  exists n, get_note N db = Ok (Some n)
            /\ Note.authorId n' = Note.authorId n.
Proof.
  unfold get_note. revert db.
  induction cs as [|c cs IH]; intros db Hwf HN Hn'; simpl in *.
  - exists n'. split; [exact Hn' | reflexivity].
  - destruct (call_notes c Hwf) as [Hnext Hkeep].
    destruct (IH _ (WF_run_call c Hwf) ltac:(lia) Hn') as [n1 [Hn1 Hauth]].
    injection Hn1 as Hn1.
    destruct (Hkeep N n1 Hn1) as [[n [Hn Hauth']]|Hnew]; [|lia].
    exists n. split; [now rewrite Hn | congruence].
Qed.

Lemma updateNote_errors (db : DB) (R : option Id) now N t c p e :
  fst (updateNote R now N t c p db) = Err e ->
  e <> DocMissing
  /\ (e = NotUnique ->
      exists u, R = Some u /\ 2 <= List.length (by_note_and_user N u db)).
Proof.
  destruct R as [u|];
    [|intros [= <-]; split; [discriminate | discriminate]].
  destruct (find_by Note._id N (notes db)) as [note|] eqn:Hget.
  - destruct (updateNote_run db u now N t c p Hget) as [upd [_ Hrun]].
    rewrite Hrun, (@patch_note_run db N upd note Hget).
    destruct (Nat.eqb (Note.authorId note) u); [discriminate|].
    destruct (by_note_and_user N u db) as [|s [|s' l]] eqn:Hs; simpl.
    + intros [= <-]. split; discriminate.
    + destruct (Permission_eqb (Share.permission s) write); [discriminate|].
      intros [= <-]. split; discriminate.
    + intros [= <-]. split; [discriminate|]. intros _. exists u.
      rewrite Hs. simpl. split; [reflexivity | lia].
  - unfold updateNote. run. unfold get_note. rewrite Hget.
    intros [= <-]. split; discriminate.
Qed.

Lemma shareNote_errors (db : DB) (R : option Id) N email p e :
  WF db ->
  fst (shareNote R N email p db) = Err e ->
  e <> DocMissing
  /\ (e = NotUnique -> 2 <= List.length (by_email email db)).
Proof.
  intros Hwf.
  destruct R as [O|]; [|intros [= <-]; split; discriminate].
  destruct (find_by Note._id N (notes db)) as [note|] eqn:Hget;
    [|unfold shareNote; run; unfold get_note; rewrite Hget;
      intros [= <-]; split; discriminate].
  destruct (Nat.eqb_spec (Note.authorId note) O) as [Hown|Hown];
    [|unfold shareNote; run; unfold get_note; rewrite Hget;
      destruct (Nat.eqb_spec (Note.authorId note) O); [contradiction|];
      intros [= <-]; split; discriminate].
  rewrite (@shareNote_run db O N email p note Hget Hown).
  destruct (by_email email db) as [|U [|U' l]] eqn:He; simpl.
  - intros [= <-]. split; discriminate.
  - destruct (Nat.eqb (User._id U) O);
      [intros [= <-]; split; discriminate|].
    pose proof (wf_pairs Hwf N (User._id U)) as Hlen.
    destruct (by_note_and_user N (User._id U) db) as [|s [|s' l]] eqn:Hs;
      simpl in Hlen; [discriminate | | lia].
    assert (Hin : In s (noteShares db)).
    { apply (by_note_and_user_In db N (User._id U)). rewrite Hs. now left. }
    unfold patch_share. rewrite (in_has_id Share._id _ _ Hin). discriminate.
  - intros [= <-]. split; [discriminate|]. intros _. lia.
Qed.

(** X13. A call that throws changes nothing.  In a store that has its
    invariants, whenever one of the four mutations throws, the store is
    exactly as before the call; the throw is never the store's "missing
    document", so no [patch] or [delete] is ever aimed at a document that
    is not there; and [.unique()] throws only in [shareNote], when two
    users carry the email given. *)
Theorem run_call_failure_atomic (c : Call) (db : DB) (e : Error) :
  WF db ->
  fst (run_call c db) = Err e ->
  snd (run_call c db) = db
  /\ e <> DocMissing
  /\ (e = NotUnique ->
      exists R N email p,
        c = ShareNote R N email p /\ 2 <= List.length (by_email email db)).
Proof.
  intros Hwf Herr. destruct c.
  - destruct (run_call_create db userId now title content isPublic)
      as [Hsnd Hfst].
    destruct (Hfst e Herr) as [-> ->]. repeat split; discriminate.
  - simpl in *.
    destruct (updateNote_errors db userId now noteId title content isPublic Herr)
      as [Hdoc Huniq].
    destruct (updateNote_store db userId now noteId title content isPublic)
      as [[e' [_ Hsame]]|[Hok _]]; [|congruence].
    split; [exact Hsame|]. split; [exact Hdoc|].
    intros ->. destruct (Huniq eq_refl) as [u [_ Hlen]].
    pose proof (wf_pairs Hwf noteId u). lia.
  - simpl in *.
    destruct (@deleteNote_store db userId noteId (wf_share_ids Hwf))
      as [[e' [Hrun [Hdoc Huniq]]]|[note [_ [_ Hrun]]]];
      rewrite Hrun in *; simpl in *; [|discriminate].
    injection Herr as <-. repeat split; [exact Hdoc | contradiction].
  - simpl in *.
    destruct (shareNote_errors userId noteId email permission Hwf Herr)
      as [Hdoc Huniq].
    split; [now apply (shareNote_fails_unchanged _ _ _ _ _ Herr)|].
    split; [exact Hdoc|].
    intros Hu. exists userId, noteId, email, permission.
    split; [reflexivity | now apply Huniq].
Qed.

(** ** The listing queries *)

Lemma getPublicNotes_run (db : DB) :
  getPublicNotes db =
  Ok (map (fun n =>
             NoteWithAuthor.mk n
               (authorName_or (find_by User._id (Note.authorId n) (users db))
                              (str "Anonymous")))
          (firstn 20 (rev (by_public true db)))).
Proof.
  unfold getPublicNotes. run. unfold collect, order_desc. simpl.
  erewrite mapQ_reads; [reflexivity|]. intros n _. reflexivity.
Qed.

Lemma by_public_In (db : DB) n :
  In n (by_public true db) <-> In n (notes db) /\ Note.isPublic n = true.
Proof.
  unfold by_public. rewrite filter_In.
  destruct (Note.isPublic n); simpl; intuition congruence.
Qed.

(** X1. [getUserNotes] gives an anonymous requester the empty list, and a
    signed-in requester exactly the notes of the store that the requester
    authored, private ones included and nobody else's, the most recently
    created first. *)
Theorem getUserNotes_lists_own (db : DB) :
  getUserNotes None db = Ok []
  /\ forall u, exists l,
       getUserNotes (Some u) db = Ok l
       /\ (forall n, In n l <-> In n (notes db) /\ Note.authorId n = u)
       /\ rev l = filter (fun n => Nat.eqb (Note.authorId n) u) (notes db).
Proof.
  split; [reflexivity|]. intros u. exists (rev (by_author u db)).
  split; [reflexivity|]. split.
  - intros n. rewrite <- in_rev. unfold by_author.
    rewrite filter_In, Nat.eqb_eq. tauto.
  - apply rev_involutive.
Qed.

(** X2. [getPublicNotes] returns at most twenty entries, every one a
    public note of the store labelled with its author's name, else email,
    else "Anonymous"; they are the most recently created public notes,
    newest first; and when the store has at most twenty public notes, all
    of them are listed. *)
Theorem getPublicNotes_newest_public (db : DB) :
  exists l,
    getPublicNotes db = Ok l
    /\ List.length l <= 20
    /\ map NoteWithAuthor.note l = firstn 20 (rev (by_public true db))
    /\ Forall (fun v =>
                 In (NoteWithAuthor.note v) (notes db)
                 /\ Note.isPublic (NoteWithAuthor.note v) = true
                 /\ NoteWithAuthor.authorName v =
                    authorName_or
                      (find_by User._id (Note.authorId (NoteWithAuthor.note v))
                               (users db))
                      (str "Anonymous")) l
    /\ (List.length (by_public true db) <= 20 ->
        forall n, In n (notes db) -> Note.isPublic n = true ->
                  In n (map NoteWithAuthor.note l)).
Proof.
  eexists. split; [apply getPublicNotes_run|].
  assert (Hnotes : forall (f : Note.t -> jsstring) l,
            map NoteWithAuthor.note (map (fun n => NoteWithAuthor.mk n (f n)) l) = l).
  { intros f l. rewrite map_map. simpl. apply map_id. }
  split; [rewrite length_map; apply firstn_le_length|].
  split; [apply Hnotes|]. split.
  - apply Forall_forall. intros v Hv. apply in_map_iff in Hv.
    destruct Hv as [n [<- Hn]]. simpl. apply firstn_In in Hn.
    apply in_rev, by_public_In in Hn. tauto.
  - intros Hlen n Hin Hpub. rewrite Hnotes.
    rewrite firstn_all2 by (rewrite length_rev; exact Hlen).
    apply in_rev. rewrite rev_involutive. apply by_public_In. tauto.
Qed.

Lemma firstn_map_firstn {A B} (f : A -> B) (l : list A) :
  firstn 19 (map f (firstn 20 l)) = map f (firstn 19 l).
Proof.
  rewrite firstn_map, firstn_firstn. reflexivity.
Qed.

Lemma createNote_store (db : DB) (u : Id) now title content isPublic :
  snd (createNote (Some u) now title content isPublic db) =
  mkDB (users db)
       (notes db ++ [Note.mk (nextId db) title (js_or content [])
                       (nullish isPublic true) u None now])
       (noteShares db) (S (nextId db)).
Proof. reflexivity. Qed.

Lemma by_public_snoc (db db' : DB) n :
  notes db' = notes db ++ [n] ->
  by_public true db' =
  by_public true db ++ (if Note.isPublic n then [n] else []).
Proof.
  intros E. unfold by_public. rewrite E, filter_app. cbn [filter].
  now destruct (Note.isPublic n).
Qed.

(** X3. A note just created heads its author's list and, when public,
    the public list.  After [createNote] by a signed-in user,
    [getUserNotes] of that user is the new note followed by the former
    list, and the lists of the other users are as before; if the note is
    public (the default), [getPublicNotes] is the new note followed by
    the first nineteen of its former entries; if it is private,
    [getPublicNotes] is as before. *)
Theorem createNote_listed (db : DB) (u : Id) (now : Z) (title : jsstring)
    (content : option jsstring) (isPublic : option bool) :
  let db' := snd (createNote (Some u) now title content isPublic db) in
  let new := Note.mk (nextId db) title (js_or content [])
                     (nullish isPublic true) u None now in
  (exists l, getUserNotes (Some u) db = Ok l
             /\ getUserNotes (Some u) db' = Ok (new :: l))
  /\ (forall u', u' <> u ->
        getUserNotes (Some u') db' = getUserNotes (Some u') db)
  /\ (nullish isPublic true = true ->
      exists l, getPublicNotes db = Ok l
                /\ getPublicNotes db' =
                   Ok (NoteWithAuthor.mk new
                         (authorName_or (find_by User._id u (users db))
                                        (str "Anonymous"))
                       :: firstn 19 l))
  /\ (nullish isPublic true = false ->
      getPublicNotes db' = getPublicNotes db).
Proof.
  intros db' new. subst db'. rewrite (createNote_store db u now title content isPublic).
  fold new. split; [|split; [|split]].
  - eexists. split; [reflexivity|].
    unfold getUserNotes. run. unfold collect, order_desc, by_author. simpl.
    rewrite filter_app. simpl. rewrite Nat.eqb_refl, rev_app_distr.
    reflexivity.
  - intros u' Hu'. unfold getUserNotes. run.
    unfold collect, order_desc, by_author. simpl.
    rewrite filter_app. simpl.
    destruct (Nat.eqb_spec u u'); [congruence|]. now rewrite app_nil_r.
  - intros Hpub. eexists. split; [apply getPublicNotes_run|].
    rewrite getPublicNotes_run, (@by_public_snoc db (mkDB (users db) (notes db ++ [new]) (noteShares db) (S (nextId db))) new eq_refl).
    cbn [users Note.isPublic new].
    rewrite Hpub, rev_app_distr. cbn [rev app]. rewrite firstn_cons.
    cbn [map Note.authorId]. f_equal. f_equal. symmetry.
    apply firstn_map_firstn.
  - intros Hpriv. rewrite !getPublicNotes_run, (@by_public_snoc db (mkDB (users db) (notes db ++ [new]) (noteShares db) (S (nextId db))) new eq_refl).
    cbn [users Note.isPublic new]. now rewrite Hpriv, app_nil_r.
Qed.

Lemma filter_none {A} (f : A -> bool) l :
  (forall x, In x l -> f x = false) -> filter f l = [].
Proof.
  induction l as [|x l IH]; intros H; simpl; [reflexivity|].
  rewrite (H x (or_introl eq_refl)). apply IH. intros y Hy. apply H. now right.
Qed.

Lemma no_share_of_unallotted (db : DB) (N u : Id) :
  WF db -> SharesOK db -> nextId db <= N -> by_note_and_user N u db = [].
Proof.
  intros Hwf Hok HN. unfold by_note_and_user. apply filter_none.
  intros s Hs. unfold SharesOK in Hok. rewrite Forall_forall in Hok.
  destruct (Hok s Hs) as [note [Hget _]].
  apply find_by_id in Hget. destruct Hget as [Hid Hin].
  pose proof (wf_note_fresh Hwf) as Hfresh. rewrite Forall_forall in Hfresh.
  specialize (Hfresh note Hin).
  destruct (Nat.eqb_spec (Share.noteId s) N); [lia | reflexivity].
Qed.

Lemma getNote_same_view (db db' : DB) (R : option Id) (N : Id) :
  find_by Note._id N (notes db') = find_by Note._id N (notes db) ->
  users db' = users db ->
  (forall u, R = Some u -> by_note_and_user N u db' = by_note_and_user N u db) ->
  getNote R N db' = getNote R N db.
Proof.
  intros Hn Hu Hs. destruct db as [us ns sh k], db' as [us' ns' sh' k'].
  simpl in Hn, Hu. subst us'. unfold getNote. run. unfold get_note. simpl.
  rewrite Hn. destruct (find_by Note._id N ns) as [note|]; [|reflexivity].
  destruct (Note.isPublic note); [reflexivity|].
  destruct R as [u|]; [|reflexivity].
  destruct (Nat.eqb (Note.authorId note) u); [reflexivity|].
  unfold query_unique. rewrite (Hs u eq_refl).
  destruct (by_note_and_user N u (mkDB us ns sh k)) as [|s [|s' l]];
    reflexivity.
Qed.

(** X4. What a new note looks like through [getNote].  In a store with
    its invariants and no orphaned share, after [createNote] by user [u]:
    [u] gets the note back with [canEdit = true], labelled "You" if it is
    private and with [u]'s own name, email or "Anonymous" if it is
    public; everybody else, signed in or not, gets it with
    [canEdit = false] if it is public and gets [null] if it is private;
    and [getNote] of every other note is as before, for every
    requester. *)
Theorem createNote_then_getNote (db : DB) (u : Id) (now : Z) (title : jsstring)
    (content : option jsstring) (isPublic : option bool) :
  WF db -> SharesOK db ->
  let db' := snd (createNote (Some u) now title content isPublic db) in
  let new := Note.mk (nextId db) title (js_or content [])
                     (nullish isPublic true) u None now in
  let name := authorName_or (find_by User._id u (users db)) (str "Anonymous") in
  getNote (Some u) (nextId db) db' =
    Ok (Some (NoteWithAccess.mk new
                (if nullish isPublic true then name else str "You") true))
  /\ (forall R, R <> Some u ->
        getNote R (nextId db) db' =
        if nullish isPublic true
        then Ok (Some (NoteWithAccess.mk new name false))
        else Ok None)
  /\ (forall R N, N <> nextId db -> getNote R N db' = getNote R N db).
Proof.
  intros Hwf Hok db' new name. subst db'.
  rewrite (createNote_store db u now title content isPublic). fold new.
  assert (Hnew : find_by Note._id (nextId db) (notes db ++ [new]) = Some new).
  { apply find_by_app_fresh; [|reflexivity].
    apply fresh_not_in, (wf_note_fresh Hwf). }
  split; [|split].
  - unfold getNote. run. unfold get_note. simpl. rewrite Hnew. simpl.
    destruct (nullish isPublic true); simpl.
    + now rewrite Nat.eqb_refl.
    + now rewrite Nat.eqb_refl.
  - intros R HR. unfold getNote. run. unfold get_note. simpl. rewrite Hnew.
    simpl. destruct (nullish isPublic true); simpl.
    + replace (optId_eqb R u) with false; [reflexivity|].
      symmetry. apply not_true_is_false. intros E. apply optId_eqb_eq in E.
      contradiction.
    + destruct R as [u'|]; [|reflexivity].
      destruct (Nat.eqb_spec u u'); [congruence|].
      unfold query_unique.
      change (by_note_and_user (nextId db) u'
                (mkDB (users db) (notes db ++ [new]) (noteShares db)
                      (S (nextId db))))
        with (by_note_and_user (nextId db) u' db).
      now rewrite (@no_share_of_unallotted db (nextId db) u' Hwf Hok (le_n _)).
  - intros R N HN. apply getNote_same_view; [|reflexivity|reflexivity].
    simpl. destruct (find_by Note._id N (notes db)) as [n|] eqn:Hn.
    + now apply find_by_app_some.
    + apply find_by_none. rewrite map_app, in_app_iff. simpl.
      apply find_by_none in Hn. intros [H|[H|[]]]; [contradiction | congruence].
Qed.

(** X11. Under "Shared" nothing is dropped and nothing is one's own.  In
    a store where every share refers to a note of the store and is held
    by someone other than the note's author, [getSharedNotes] returns one
    entry per share of the requester, in the order of the shares, with
    that share's note and permission, and no entry is a note the
    requester authored; for an anonymous requester it returns the empty
    list. *)
Theorem getSharedNotes_one_per_share (db : DB) (u : Id) :
  SharesOK db ->
  getSharedNotes None db = Ok []
  /\ exists l,
       getSharedNotes (Some u) db = Ok l
       /\ map (fun v => (Note._id (NoteWithShare.note v), NoteWithShare.permission v)) l
          = map (fun s => (Share.noteId s, Share.permission s)) (by_user u db)
       /\ Forall (fun v => Note.authorId (NoteWithShare.note v) <> u
                           /\ In (NoteWithShare.note v) (notes db)) l.
Proof.
  intros Hok. split; [reflexivity|].
  eexists. split; [apply getSharedNotes_run|].
  assert (Hall : Forall (share_ok db) (by_user u db)
                 /\ Forall (fun s => Share.sharedWithId s = u) (by_user u db)).
  { unfold SharesOK in Hok. rewrite Forall_forall in Hok.
    split; apply Forall_forall; intros s Hs; unfold by_user in Hs;
      apply filter_In in Hs; destruct Hs as [Hs Hu];
      [now apply Hok | now apply Nat.eqb_eq]. }
  destruct Hall as [Hall Hmine].
  induction (by_user u db) as [|s l IH]; simpl; [split; constructor|].
  inversion Hall as [|? ? [note [Hget [Hby Hself]]] Hall']; subst.
  inversion Hmine as [|? ? Hu Hmine']; subst.
  destruct (IH Hall' Hmine') as [IH1 IH2]. rewrite Hget. simpl.
  apply find_by_id in Hget. destruct Hget as [Hid Hin].
  split; [now rewrite Hid, IH1|].
  constructor; [|exact IH2]. simpl. split; [congruence | exact Hin].
Qed.

(** ** Sharing, then reading *)

Lemma patch_by_absent {A} (id_of : A -> Id) i f l :
  (forall d, In d l -> id_of d <> i) -> patch_by id_of i f l = l.
Proof.
  intros H. unfold patch_by. rewrite <- (map_id l) at 2.
  apply map_ext_in. intros d Hd.
  destruct (Nat.eqb_spec (id_of d) i); [|reflexivity].
  exfalso. now apply (H d Hd).
Qed.

(** The store after a successful [shareNote]: the tables of users and
    notes as before, one share for the pair with the permission given,
    the shares of every other pair as before. *)
Lemma shareNote_after (db : DB) (O N : Id) email p :
  WF db ->
  fst (shareNote (Some O) N email p db) = Ok tt ->
  exists note U s,
    find_by Note._id N (notes db) = Some note
    /\ Note.authorId note = O
    /\ by_email email db = [U] /\ User._id U <> O
    /\ notes (snd (shareNote (Some O) N email p db)) = notes db
    /\ users (snd (shareNote (Some O) N email p db)) = users db
    /\ by_note_and_user N (User._id U) (snd (shareNote (Some O) N email p db))
       = [s]
    /\ Share.permission s = p
    /\ (forall n u, n <> N \/ u <> User._id U ->
          by_note_and_user n u (snd (shareNote (Some O) N email p db))
          = by_note_and_user n u db).
Proof.
  intros Hwf Hok.
  destruct (shareNote_store db (Some O) N email p)
    as [[e [Herr _]]
       |[O' [note [U [HO [Hget [Hown [He [HU [[Hs Hrun]|[s [Hs Hrun]]]]]]]]]]]];
    [congruence| |]; injection HO as <-; rewrite Hrun; cbn [snd notes users].
  - exists note, U, (Share.mk (nextId db) N (User._id U) p O).
    repeat (split; [assumption || reflexivity|]).
    split; [|split; [reflexivity|]].
    + unfold by_note_and_user in *. cbn [noteShares]. rewrite filter_app, Hs.
      simpl. now rewrite !Nat.eqb_refl.
    + intros n u Hne. unfold by_note_and_user. cbn [noteShares].
      rewrite filter_app. simpl.
      destruct (Nat.eqb_spec N n), (Nat.eqb_spec (User._id U) u); simpl;
        try apply app_nil_r.
      exfalso. destruct Hne; congruence.
  - assert (Hin : In s (noteShares db) /\ Share.noteId s = N
                  /\ Share.sharedWithId s = User._id U).
    { apply by_note_and_user_In. rewrite Hs. now left. }
    exists note, U, (set_permission p s).
    repeat (split; [assumption || reflexivity|]).
    split; [|split; [reflexivity|]].
    + unfold by_note_and_user at 1. cbn [noteShares].
      rewrite by_note_and_user_patch, Hs. simpl. now rewrite Nat.eqb_refl.
    + intros n u Hne. unfold by_note_and_user at 1. cbn [noteShares].
      rewrite by_note_and_user_patch. apply patch_by_absent.
      intros d Hd E. apply by_note_and_user_In in Hd.
      destruct Hd as [Hd [Hdn Hdu]]. destruct Hin as [Hin [Hsn Hsu]].
      rewrite (NoDup_ids_inj Share._id _ d s (wf_share_ids Hwf) Hd Hin E) in *.
      destruct Hne; congruence.
Qed.

(** X5. A share takes effect at once and means what its permission says.
    After a successful [shareNote] by owner [O] on note [N] for the user
    [U] of the email, in a store with its invariants: if [N] is private,
    [getNote] gives [U] the note, labelled with [O]'s name, else email,
    else "Unknown", and [canEdit] is true exactly for the [write]
    permission; [updateNote] by [U] succeeds exactly for [write] and
    otherwise throws "Not authorized to edit this note" — so sharing
    again with [read] takes the editing right back. *)
Theorem shareNote_then_access (db : DB) (O N : Id) (email : jsstring)
    (p : Permission) :
  WF db ->
  fst (shareNote (Some O) N email p db) = Ok tt ->
  let db' := snd (shareNote (Some O) N email p db) in
  exists note U,
    get_note N db = Ok (Some note) /\ by_email email db = [U]
    /\ (Note.isPublic note = false ->
        getNote (Some (User._id U)) N db' =
        Ok (Some (NoteWithAccess.mk note
                    (authorName_or (find_by User._id O (users db)) (str "Unknown"))
                    (Permission_eqb p write))))
    /\ (forall now t c q,
          fst (updateNote (Some (User._id U)) now N t c q db') =
          match p with
          | write => Ok tt
          | read => Err NotAuthorizedEdit
          end).
Proof.
  intros Hwf Hok db'.
  destruct (@shareNote_after db O N email p Hwf Hok)
    as [note [U [s [Hget [Hown [He [HU [Hn [Hu [Hs [Hp _]]]]]]]]]]].
  fold db' in Hn, Hu, Hs. exists note, U.
  split; [unfold get_note; now rewrite Hget|]. split; [exact He|].
  assert (Hget' : find_by Note._id N (notes db') = Some note) by now rewrite Hn.
  assert (Hne : Nat.eqb (Note.authorId note) (User._id U) = false)
    by (apply Nat.eqb_neq; congruence).
  split.
  - intros Hpriv. unfold getNote. run. unfold get_note.
    rewrite Hget', Hpriv, Hne. unfold query_unique. rewrite Hs. simpl.
    now rewrite Hu, Hown, Hp.
  - intros now t c q.
    destruct (updateNote_run db' (User._id U) now N t c q Hget')
      as [upd [_ Hrun]].
    rewrite Hrun, Hne, Hs, Hp, (@patch_note_run db' N upd note Hget').
    now destruct p.
Qed.

Lemma shared_entries_of_note (db : DB) (u N : Id) (sh : list Share.t) :
  filter (fun v => Nat.eqb (Note._id (NoteWithShare.note v)) N)
    (flat_map
       (fun share =>
          match find_by Note._id (Share.noteId share) (notes db) with
          | Some note =>
              [NoteWithShare.mk note
                 (authorName_or
                    (find_by User._id (Note.authorId note) (users db))
                    (str "Unknown"))
                 (Share.permission share)]
          | None => []
          end)
       (filter (fun s => Nat.eqb (Share.sharedWithId s) u) sh))
  = flat_map
      (fun share =>
         match find_by Note._id (Share.noteId share) (notes db) with
         | Some note =>
             [NoteWithShare.mk note
                (authorName_or
                   (find_by User._id (Note.authorId note) (users db))
                   (str "Unknown"))
                (Share.permission share)]
         | None => []
         end)
      (filter (fun s => Nat.eqb (Share.noteId s) N
                        && Nat.eqb (Share.sharedWithId s) u) sh).
Proof.
  induction sh as [|s sh IH]; [reflexivity|]. cbn [filter].
  destruct (Nat.eqb (Share.sharedWithId s) u).
  - rewrite andb_true_r. cbn [flat_map]. rewrite filter_app, IH.
    destruct (Nat.eqb (Share.noteId s) N) eqn:EN; cbn [flat_map];
      destruct (find_by Note._id (Share.noteId s) (notes db)) as [note|] eqn:Hn;
      try reflexivity;
      apply find_by_id in Hn; destruct Hn as [Hid _];
      cbn [filter NoteWithShare.note]; rewrite Hid, EN; reflexivity.
  - rewrite andb_false_r. exact IH.
Qed.

(** X6. After a successful [shareNote] the note is under "Shared" of the
    user it was shared with, once, with the permission given: in a store
    with its invariants, the entries of [getSharedNotes] of that user for
    the note are exactly one, carrying the note, its author's name (else
    email, else "Unknown") and the permission of the call. *)
Theorem shareNote_then_listed (db : DB) (O N : Id) (email : jsstring)
    (p : Permission) :
  WF db ->
  fst (shareNote (Some O) N email p db) = Ok tt ->
  let db' := snd (shareNote (Some O) N email p db) in
  exists note U l,
    get_note N db = Ok (Some note) /\ by_email email db = [U]
    /\ getSharedNotes (Some (User._id U)) db' = Ok l
    /\ filter (fun v => Nat.eqb (Note._id (NoteWithShare.note v)) N) l
       = [NoteWithShare.mk note
            (authorName_or (find_by User._id O (users db)) (str "Unknown")) p].
Proof.
  intros Hwf Hok db'.
  destruct (@shareNote_after db O N email p Hwf Hok)
    as [note [U [s [Hget [Hown [He [HU [Hn [Hu [Hs [Hp _]]]]]]]]]]].
  fold db' in Hn, Hu, Hs. exists note, U. eexists.
  split; [unfold get_note; now rewrite Hget|]. split; [exact He|].
  split; [apply getSharedNotes_run|].
  unfold by_user. rewrite shared_entries_of_note.
  fold (by_note_and_user N (User._id U) db'). rewrite Hs. cbn [flat_map].
  assert (Hsn : Share.noteId s = N).
  { apply (by_note_and_user_In db' N (User._id U)). rewrite Hs. now left. }
  rewrite Hsn, Hn, Hget, Hu, Hown, Hp. reflexivity.
Qed.

(** X17. Sharing a note with one user changes nobody else's access.
    After a successful [shareNote] for note [N] and the user [U] of the
    email, in a store with its invariants, [getNote] answers as before
    for every requester on every other note and for every other
    requester on [N], and the two listings that do not read shares,
    [getUserNotes] and [getPublicNotes], are as before. *)
Theorem shareNote_access_frame (db : DB) (O N : Id) (email : jsstring)
    (p : Permission) :
  WF db ->
  fst (shareNote (Some O) N email p db) = Ok tt ->
  let db' := snd (shareNote (Some O) N email p db) in
  exists U,
    by_email email db = [U]
    /\ (forall R n, n <> N \/ R <> Some (User._id U) ->
          getNote R n db' = getNote R n db)
    /\ (forall R, getUserNotes R db' = getUserNotes R db)
    /\ getPublicNotes db' = getPublicNotes db.
Proof.
  intros Hwf Hok db'.
  destruct (@shareNote_after db O N email p Hwf Hok)
    as [note [U [s [Hget [Hown [He [HU [Hn [Hu [Hs [Hp Hframe]]]]]]]]]]].
  fold db' in Hn, Hu, Hs, Hframe. exists U. split; [exact He|].
  split; [|split].
  - intros R n Hne. apply getNote_same_view; [now rewrite Hn | exact Hu|].
    intros u ->. apply Hframe. destruct Hne as [H|H]; [now left|].
    right. congruence.
  - intros [u|]; [|reflexivity]. unfold getUserNotes. run.
    unfold collect, order_desc, by_author. now rewrite Hn.
  - rewrite !getPublicNotes_run. unfold by_public. now rewrite Hn, Hu.
Qed.

(** ** The client's gate and the server's guard *)

(** X7. The editor's gate is safe.  The client calls [updateNote] only
    when [getNote] reported [canEdit = true] ([saveNote] returns at once
    otherwise); whenever [getNote] reports [canEdit = true] for a
    requester and a note, [updateNote] by that requester on that note
    does not throw, whatever fields it is given. *)
Theorem canEdit_allows_updateNote (db : DB) (R N : Id) :
  resolver_canEdit R N db = true ->
  forall now t c p, fst (updateNote (Some R) now N t c p db) = Ok tt.
Proof.
  intros Hcan now t c p.
  destruct (find_by Note._id N (notes db)) as [note|] eqn:Hget;
    [|revert Hcan; unfold resolver_canEdit, getNote; run; unfold get_note;
      rewrite Hget; discriminate].
  destruct (updateNote_run db R now N t c p Hget) as [upd [_ Hrun]].
  rewrite Hrun, (@patch_note_run db N upd note Hget). clear Hrun.
  revert Hcan. unfold resolver_canEdit, getNote. run. unfold get_note.
  rewrite Hget.
  destruct (Nat.eqb (Note.authorId note) R) eqn:Eown; [reflexivity|].
  destruct (Note.isPublic note).
  - simpl. rewrite Nat.eqb_sym, Eown. discriminate.
  - unfold query_unique.
    destruct (by_note_and_user N R db) as [|s [|s' l]]; simpl;
      try discriminate.
    now intros ->.
Qed.

(** ** Deleting, then reading *)

Lemma find_by_In_NoDup {A} (id_of : A -> Id) l d :
  NoDup (map id_of l) -> In d l -> find_by id_of (id_of d) l = Some d.
Proof.
  intros Hnd Hin.
  destruct (find_by id_of (id_of d) l) as [d'|] eqn:E.
  - apply find_by_id in E. destruct E as [Hid Hin'].
    now rewrite (NoDup_ids_inj id_of l d' d Hnd Hin' Hin Hid).
  - apply find_by_none in E. exfalso. apply E. now apply in_map.
Qed.

(** X8. A deleted note is gone for everyone and nothing else moves.
    After the author's [deleteNote] of note [N], in a store with its
    invariants: [getNote] of [N] is [null] for every requester, the
    author included; [getNote] of every other note answers as before for
    every requester; the author's [getUserNotes] is the former list
    without [N]; and [getPublicNotes] has no entry for [N]. *)
Theorem deleteNote_then_reads (db : DB) (N : Id) (note : Note.t) :
  WF db ->
  get_note N db = Ok (Some note) ->
  let db' := snd (deleteNote (Some (Note.authorId note)) N db) in
  (forall R, getNote R N db' = Ok None)
  /\ (forall R N', N' <> N -> getNote R N' db' = getNote R N' db)
  /\ (exists l,
        getUserNotes (Some (Note.authorId note)) db = Ok l
        /\ getUserNotes (Some (Note.authorId note)) db' =
           Ok (filter (fun n => negb (Nat.eqb (Note._id n) N)) l))
  /\ (exists l,
        getPublicNotes db' = Ok l
        /\ Forall (fun v => Note._id (NoteWithAuthor.note v) <> N) l).
Proof.
  intros Hwf Hget db'. unfold get_note in Hget. injection Hget as Hget.
  subst db'. rewrite (@deleteNote_run db N note (wf_share_ids Hwf) Hget).
  cbn [snd]. split; [|split; [|split]].
  - intros R. unfold getNote. run. unfold get_note. simpl.
    now rewrite find_by_delete_by.
  - intros R N' HN'. apply getNote_same_view; [|reflexivity|].
    + simpl. now apply find_by_delete_by_other.
    + intros u _. unfold by_note_and_user. simpl. rewrite filter_twice.
      apply filter_ext. intros s.
      destruct (Nat.eqb_spec (Share.noteId s) N) as [E|E]; simpl;
        [|reflexivity].
      destruct (Nat.eqb_spec (Share.noteId s) N'); [congruence | reflexivity].
  - eexists. split; [reflexivity|]. unfold getUserNotes. run.
    unfold collect, order_desc, by_author, delete_by. simpl.
    rewrite filter_rev, !filter_twice. do 2 f_equal. apply filter_ext.
    intros n. apply andb_comm.
  - eexists. split; [apply getPublicNotes_run|].
    apply Forall_forall. intros v Hv. apply in_map_iff in Hv.
    destruct Hv as [n [<- Hn]]. simpl. apply firstn_In, in_rev in Hn.
    unfold by_public, delete_by in Hn. simpl in Hn.
    apply filter_In in Hn. destruct Hn as [Hn _].
    apply filter_In in Hn. destruct Hn as [_ Hn].
    now apply negb_true_iff, Nat.eqb_neq in Hn.
Qed.

(** ** What is listed can be opened *)

(** X16. An author's rights over a note of theirs never depend on its
    visibility or its shares.  For every note of a store with its
    invariants, its author gets it from [getNote] with [canEdit = true]
    (labelled "You" when private, with the author's name, email or
    "Anonymous" when public), and [updateNote] and [deleteNote] by the
    author succeed. *)
Theorem author_rights (db : DB) (n : Note.t) :
  WF db ->
  In n (notes db) ->
  let u := Note.authorId n in
  getNote (Some u) (Note._id n) db =
    Ok (Some (NoteWithAccess.mk n
                (if Note.isPublic n
                 then authorName_or (find_by User._id u (users db))
                                    (str "Anonymous")
                 else str "You")
                true))
  /\ (forall now t c p,
        fst (updateNote (Some u) now (Note._id n) t c p db) = Ok tt)
  /\ fst (deleteNote (Some u) (Note._id n) db) = Ok tt.
Proof.
  intros Hwf Hin u. subst u.
  pose proof (find_by_In_NoDup Note._id _ _ (wf_note_ids Hwf) Hin) as Hget.
  split; [|split].
  - unfold getNote. run. unfold get_note. rewrite Hget.
    destruct (Note.isPublic n); simpl; now rewrite Nat.eqb_refl.
  - intros now t c p.
    destruct (updateNote_run db (Note.authorId n) now (Note._id n) t c p Hget)
      as [upd [_ Hrun]].
    now rewrite Hrun, Nat.eqb_refl, (@patch_note_run db _ upd n Hget).
  - now rewrite (@deleteNote_run db _ n (wf_share_ids Hwf) Hget).
Qed.

(** X15. Every entry under "Shared" opens.  In a store with its
    invariants, for every entry that [getSharedNotes] gives a user,
    [getNote] by that user on the entry's note returns that note; and
    when the note is private and not the user's own, [getNote] shows the
    same author name as the entry and [canEdit] is true exactly when the
    entry's permission is [write]. *)
Theorem shared_entry_opens (db : DB) (u : Id) (l : list NoteWithShare.t)
    (v : NoteWithShare.t) :
  WF db ->
  getSharedNotes (Some u) db = Ok l ->
  In v l ->
  exists w,
    getNote (Some u) (Note._id (NoteWithShare.note v)) db = Ok (Some w)
    /\ NoteWithAccess.note w = NoteWithShare.note v
    /\ (Note.isPublic (NoteWithShare.note v) = false ->
        Note.authorId (NoteWithShare.note v) <> u ->
        NoteWithAccess.authorName w = NoteWithShare.authorName v
        /\ NoteWithAccess.canEdit w =
           Permission_eqb (NoteWithShare.permission v) write).
Proof.
  intros Hwf Hl Hv. rewrite getSharedNotes_run in Hl. injection Hl as <-.
  apply in_flat_map in Hv. destruct Hv as [s [Hs Hv]].
  destruct (find_by Note._id (Share.noteId s) (notes db)) as [note|] eqn:Hget;
    [|contradiction].
  destruct Hv as [<-|[]]. cbn [NoteWithShare.note NoteWithShare.authorName
                                 NoteWithShare.permission].
  destruct (find_by_id _ _ _ Hget) as [Hid _]. rewrite Hid.
  unfold getNote. run. unfold get_note. rewrite Hget.
  destruct (Note.isPublic note); [eexists; split; [reflexivity|];
                                  split; [reflexivity | discriminate]|].
  destruct (Nat.eqb_spec (Note.authorId note) u) as [E|E];
    [eexists; split; [reflexivity|]; split; [reflexivity | congruence]|].
  unfold query_unique. unfold by_user in Hs. apply filter_In in Hs.
  destruct Hs as [Hs Hu]. apply Nat.eqb_eq in Hu.
  assert (Hin : In s (by_note_and_user (Share.noteId s) u db)).
  { unfold by_note_and_user. apply filter_In. split; [exact Hs|].
    now rewrite Nat.eqb_refl, Hu, Nat.eqb_refl. }
  pose proof (wf_pairs Hwf (Share.noteId s) u) as Hlen.
  destruct (by_note_and_user (Share.noteId s) u db) as [|s0 [|s1 l0]];
    simpl in *; [contradiction | | lia].
  destruct Hin as [->|[]].
  eexists. split; [reflexivity|]. split; [reflexivity|]. auto.
Qed.

(** ** Errors come in the order of the checks *)

(** X14. Who is asking is checked first, then whether the note exists.
    Each of [updateNote], [deleteNote] and [shareNote] throws "Not
    authenticated" for an anonymous requester whether or not the note
    exists, and "Note not found" for a signed-in requester on an
    identifier that names no note, whatever the other arguments; the
    store is not touched; and [getNote] on such an identifier is [null]
    for everyone. *)
Theorem missing_note_errors (db : DB) (N : Id) :
  get_note N db = Ok None ->
  (forall R, getNote R N db = Ok None)
  /\ (forall u now t c p,
        updateNote (Some u) now N t c p db = (Err NoteNotFound, db))
  /\ (forall u, deleteNote (Some u) N db = (Err NoteNotFound, db))
  /\ (forall u email perm,
        shareNote (Some u) N email perm db = (Err NoteNotFound, db))
  /\ (forall M now t c p email perm,
        updateNote None now M t c p db = (Err NotAuthenticated, db)
        /\ deleteNote None M db = (Err NotAuthenticated, db)
        /\ shareNote None M email perm db = (Err NotAuthenticated, db))
  /\ kind NoteNotFound = NotFoundError.
Proof.
  intros Hget. unfold get_note in Hget. injection Hget as Hget.
  split; [|split; [|split; [|split; [|split]]]].
  - intros R. unfold getNote. run. unfold get_note. now rewrite Hget.
  - intros. unfold updateNote. run. unfold get_note. now rewrite Hget.
  - intros. unfold deleteNote. run. unfold get_note. now rewrite Hget.
  - intros. unfold shareNote. run. unfold get_note. now rewrite Hget.
  - intros. repeat split.
  - reflexivity.
Qed.

(** ** Search *)

Section SearchFurther.

Variable search_content : jsstring -> SearchFilter -> list Note.t -> list Note.t.

(** X19. A blank query finds nothing and asks the index nothing: for a
    query that is empty or made of white space and line terminators
    only, [searchNotes] returns the empty list for every requester,
    whatever the text index would answer. *)
Theorem searchNotes_blank_query (R : option Id) (Q : jsstring) (db : DB) :
  forallb isTrimSpace Q = true ->
  searchNotes search_content R Q db = Ok []
  /\ trim Q = [].
Proof.
  intros HQ. split; [now apply searchNotes_blank|].
  pose proof (trim_blank Q) as H. rewrite HQ in H.
  now destruct (trim Q).
Qed.

Hypothesis search_content_sound : forall text f tbl n,
  In n (search_content text f tbl) -> In n tbl /\ filter_holds f n = true.

Lemma searchNotes_results (R : option Id) (Q : jsstring) (db : DB) :
  exists results,
    searchNotes search_content R Q db = Ok results
    /\ Forall (fun v =>
                 In (NoteWithAuthor.note v) (notes db)
                 /\ (Note.isPublic (NoteWithAuthor.note v) = true
                     \/ R = Some (Note.authorId (NoteWithAuthor.note v))))
              results.
Proof.
  destruct (forallb isTrimSpace Q) eqn:HQ.
  - exists []. split; [now apply searchNotes_blank | constructor].
  - destruct R as [u|].
    + eexists. split; [now apply searchNotes_signed_in|].
      apply Forall_forall. intros v Hv. apply firstn_In in Hv.
      apply in_map_iff in Hv. destruct Hv as [n [<- Hn]]. simpl.
      apply dedup_first_In in Hn. destruct Hn as [Hn _].
      apply in_app_iff in Hn. destruct Hn as [Hn|Hn].
      * apply (@publicResults_public search_content search_content_sound) in Hn. tauto.
      * apply (@userResults_own search_content search_content_sound) in Hn.
        destruct Hn as [Hin <-]. auto.
    + eexists. split; [now apply searchNotes_anonymous|].
      apply Forall_forall. intros v Hv.
      apply in_map_iff in Hv. destruct Hv as [n [<- Hn]]. simpl.
      apply (@publicResults_public search_content search_content_sound) in Hn. tauto.
Qed.

(** X21. Every search result opens.  If the text index answers with
    notes of the table that pass the query's filter, then in a store with
    its invariants every entry of [searchNotes] is a note that [getNote]
    returns to the same requester, signed in or not; for a signed-in
    requester [canEdit] is then true exactly on the requester's own
    notes. *)
Theorem search_result_opens (R : option Id) (Q : jsstring) (db : DB)
    (l : list NoteWithAuthor.t) (v : NoteWithAuthor.t) :
  WF db ->
  searchNotes search_content R Q db = Ok l ->
  In v l ->
  exists w,
    getNote R (Note._id (NoteWithAuthor.note v)) db = Ok (Some w)
    /\ NoteWithAccess.note w = NoteWithAuthor.note v
    /\ (NoteWithAccess.canEdit w = true
        <-> R = Some (Note.authorId (NoteWithAuthor.note v))).
Proof.
  intros Hwf Hl Hv.
  destruct (searchNotes_results R Q db) as [l' [Hl' Hall]].
  rewrite Hl in Hl'. injection Hl' as <-.
  rewrite Forall_forall in Hall. destruct (Hall v Hv) as [Hin Hscope].
  pose proof (find_by_In_NoDup Note._id _ _ (wf_note_ids Hwf) Hin) as Hget.
  unfold getNote. run. unfold get_note. rewrite Hget.
  destruct (Note.isPublic (NoteWithAuthor.note v)) eqn:Hpub.
  - eexists. split; [reflexivity|]. split; [reflexivity|]. simpl.
    apply optId_eqb_eq.
  - destruct Hscope as [H|H]; [discriminate|]. subst R.
    rewrite Nat.eqb_refl. eexists. split; [reflexivity|].
    split; [reflexivity|]. simpl. tauto.
Qed.

End SearchFurther.

(** ** The further properties on the example store *)

Lemma demo_db_run : demo_db = run_calls demo_calls two_users.
Proof. reflexivity. Qed.

Lemma SharesOK_demo_db : SharesOK demo_db.
Proof.
  rewrite demo_db_run. apply SharesOK_run_calls; [apply WF_two_users|].
  constructor.
Qed.

Lemma createNote_then_getNote_witness :
  WF demo_db /\ SharesOK demo_db
  /\ getNote (Some 1) 6
       (snd (createNote (Some 1) 9 (str "t") None (Some false) demo_db))
     = Ok (Some (NoteWithAccess.mk
                   (Note.mk 6 (str "t") [] false 1 None 9) (str "You") true))
  /\ getNote (Some 0) 6
       (snd (createNote (Some 1) 9 (str "t") None (Some false) demo_db))
     = Ok None.
Proof.
  destruct (@createNote_then_getNote demo_db 1 9 (str "t") None (Some false)
              WF_demo_db SharesOK_demo_db) as [Hown [Hother _]].
  split; [exact WF_demo_db|]. split; [exact SharesOK_demo_db|].
  split; [exact Hown | apply Hother; discriminate].
Defined.

Lemma shareNote_then_access_witness :
  fst (shareNote (Some 0) 4 (str "b@x.org") write demo_db) = Ok tt
  /\ exists note U,
       get_note 4 demo_db = Ok (Some note)
       /\ by_email (str "b@x.org") demo_db = [U]
       /\ forall now t c q,
            fst (updateNote (Some (User._id U)) now 4 t c q
                   (snd (shareNote (Some 0) 4 (str "b@x.org") write demo_db)))
            = Ok tt.
Proof.
  split; [reflexivity|].
  destruct (@shareNote_then_access demo_db 0 4 (str "b@x.org") write
              WF_demo_db eq_refl) as [note [U [H1 [H2 [_ H4]]]]].
  exists note, U. auto.
Defined.

Lemma shareNote_then_listed_witness :
  fst (shareNote (Some 0) 4 (str "b@x.org") write demo_db) = Ok tt
  /\ exists note U l,
       get_note 4 demo_db = Ok (Some note)
       /\ by_email (str "b@x.org") demo_db = [U]
       /\ getSharedNotes (Some (User._id U))
            (snd (shareNote (Some 0) 4 (str "b@x.org") write demo_db)) = Ok l
       /\ filter (fun v => Nat.eqb (Note._id (NoteWithShare.note v)) 4) l
          = [NoteWithShare.mk note
               (authorName_or (find_by User._id 0 (users demo_db))
                              (str "Unknown")) write].
Proof.
  split; [reflexivity|].
  apply (@shareNote_then_listed demo_db 0 4 (str "b@x.org") write
           WF_demo_db eq_refl).
Defined.

Lemma shareNote_access_frame_witness :
  fst (shareNote (Some 0) 4 (str "b@x.org") write demo_db) = Ok tt
  /\ exists U,
       by_email (str "b@x.org") demo_db = [U]
       /\ getNote (Some 1) 2
            (snd (shareNote (Some 0) 4 (str "b@x.org") write demo_db))
          = getNote (Some 1) 2 demo_db.
Proof.
  split; [reflexivity|].
  destruct (@shareNote_access_frame demo_db 0 4 (str "b@x.org") write
              WF_demo_db eq_refl) as [U [H1 [H2 _]]].
  exists U. split; [exact H1|]. apply H2. left. discriminate.
Defined.

Lemma canEdit_allows_updateNote_witness :
  resolver_canEdit 0 2 demo_db = true
  /\ fst (updateNote (Some 0) 7 2 None (Some (str "c")) (Some false) demo_db)
     = Ok tt.
Proof.
  split; [reflexivity|].
  apply (@canEdit_allows_updateNote demo_db 0 2 eq_refl).
Defined.

Lemma deleteNote_then_reads_witness :
  get_note 2 demo_db = Ok (Some demo_public_note)
  /\ getNote (Some 1) 2 (snd (deleteNote (Some 0) 2 demo_db)) = Ok None
  /\ getNote (Some 1) 4 (snd (deleteNote (Some 0) 2 demo_db))
     = getNote (Some 1) 4 demo_db.
Proof.
  destruct (@deleteNote_then_reads demo_db 2 demo_public_note WF_demo_db
              eq_refl) as [Hgone [Hframe _]].
  split; [reflexivity|].
  split; [apply Hgone | apply Hframe; discriminate].
Defined.

Lemma run_calls_invariant_witness :
  WF two_users /\ WF (run_calls demo_calls two_users).
Proof.
  split; [exact WF_two_users|].
  apply (@run_calls_invariant demo_calls two_users WF_two_users).
Defined.

Lemma run_calls_shares_ok_witness :
  WF two_users /\ SharesOK two_users
  /\ SharesOK (run_calls demo_calls two_users).
Proof.
  assert (H : SharesOK two_users) by constructor.
  split; [exact WF_two_users|]. split; [exact H|].
  apply (@run_calls_shares_ok demo_calls two_users WF_two_users H).
Defined.

Lemma getSharedNotes_one_per_share_witness :
  SharesOK demo_db
  /\ exists l,
       getSharedNotes (Some 1) demo_db = Ok l
       /\ map (fun v => (Note._id (NoteWithShare.note v),
                         NoteWithShare.permission v)) l
          = [(2, write); (4, read)].
Proof.
  split; [exact SharesOK_demo_db|].
  destruct (@getSharedNotes_one_per_share demo_db 1 SharesOK_demo_db)
    as [_ [l [H1 [H2 _]]]].
  exists l. split; [exact H1 | exact H2].
Defined.

Lemma run_calls_author_kept_witness :
  WF demo_db /\ 2 < nextId demo_db
  /\ get_note 2
       (run_calls [UpdateNote (Some 1) 7 2 (Some (str "x")) None (Some false);
                   DeleteNote (Some 0) 4] demo_db)
     = Ok (Some (Note.mk 2 (str "x") [] true 0 (Some 1) 7))
  /\ exists n, get_note 2 demo_db = Ok (Some n) /\ 0 = Note.authorId n.
Proof.
  assert (H2 : 2 < nextId demo_db) by (vm_compute; lia).
  split; [exact WF_demo_db|]. split; [exact H2|]. split; [reflexivity|].
  apply (@run_calls_author_kept
           [UpdateNote (Some 1) 7 2 (Some (str "x")) None (Some false);
            DeleteNote (Some 0) 4]
           demo_db 2 (Note.mk 2 (str "x") [] true 0 (Some 1) 7)
           WF_demo_db H2 eq_refl).
Defined.

Lemma run_call_failure_atomic_witness :
  WF demo_db
  /\ fst (run_call (DeleteNote (Some 1) 4) demo_db) = Err NotAuthorizedDelete
  /\ snd (run_call (DeleteNote (Some 1) 4) demo_db) = demo_db.
Proof.
  split; [exact WF_demo_db|]. split; [reflexivity|].
  apply (@run_call_failure_atomic (DeleteNote (Some 1) 4) demo_db
           NotAuthorizedDelete WF_demo_db eq_refl).
Defined.

Lemma missing_note_errors_witness :
  get_note 9 demo_db = Ok None
  /\ deleteNote (Some 0) 9 demo_db = (Err NoteNotFound, demo_db).
Proof.
  split; [reflexivity|].
  destruct (@missing_note_errors demo_db 9 eq_refl) as [_ [_ [H _]]].
  apply H.
Defined.

Lemma author_rights_witness :
  WF demo_db /\ In demo_private_note (notes demo_db)
  /\ getNote (Some 0) 4 demo_db
     = Ok (Some (NoteWithAccess.mk demo_private_note (str "You") true))
  /\ fst (deleteNote (Some 0) 4 demo_db) = Ok tt.
Proof.
  assert (Hin : In demo_private_note (notes demo_db))
    by (right; left; reflexivity).
  destruct (@author_rights demo_db demo_private_note WF_demo_db Hin)
    as [Hget [_ Hdel]].
  split; [exact WF_demo_db|]. split; [exact Hin|].
  split; [exact Hget | exact Hdel].
Defined.

Lemma shared_entry_opens_witness :
  WF demo_db
  /\ getSharedNotes (Some 1) demo_db
     = Ok [NoteWithShare.mk demo_public_note (str "Alice") write;
           NoteWithShare.mk demo_private_note (str "Alice") read]
  /\ exists w,
       getNote (Some 1) 4 demo_db = Ok (Some w)
       /\ NoteWithAccess.note w = demo_private_note
       /\ NoteWithAccess.canEdit w = false.
Proof.
  split; [exact WF_demo_db|]. split; [reflexivity|].
  destruct (@shared_entry_opens demo_db 1
              [NoteWithShare.mk demo_public_note (str "Alice") write;
               NoteWithShare.mk demo_private_note (str "Alice") read]
              (NoteWithShare.mk demo_private_note (str "Alice") read)
              WF_demo_db eq_refl (or_intror (or_introl eq_refl)))
    as [w [H1 [H2 H3]]].
  exists w. split; [exact H1|]. split; [exact H2|].
  apply H3; [reflexivity | discriminate].
Defined.

Lemma searchNotes_blank_query_witness :
  forallb isTrimSpace (str "  ") = true
  /\ searchNotes match_all (Some 0) (str "  ") demo_db = Ok [].
Proof.
  split; [reflexivity|].
  apply (@searchNotes_blank_query match_all (Some 0) (str "  ") demo_db eq_refl).
Defined.

Lemma search_result_opens_witness :
  WF demo_db
  /\ searchNotes match_all (Some 1) (str "a") demo_db
     = Ok [NoteWithAuthor.mk demo_public_note (str "Alice")]
  /\ exists w,
       getNote (Some 1) 2 demo_db = Ok (Some w)
       /\ NoteWithAccess.note w = demo_public_note.
Proof.
  split; [exact WF_demo_db|]. split; [reflexivity|].
  destruct (@search_result_opens match_all match_all_sound (Some 1) (str "a")
              demo_db [NoteWithAuthor.mk demo_public_note (str "Alice")]
              (NoteWithAuthor.mk demo_public_note (str "Alice"))
              WF_demo_db eq_refl (or_introl eq_refl)) as [w [H1 [H2 _]]].
  exists w. split; [exact H1 | exact H2].
Defined.

(** ** Editing and access *)

Lemma access_run (R : option Id) (N : Id) (db : DB) :
  access R N db =
  match find_by Note._id N (notes db) with
  | None => Ok None
  | Some note =>
      if Note.isPublic note then Ok (Some (optId_eqb R (Note.authorId note)))
      else match R with
           | None => Ok None
           | Some u =>
               if Nat.eqb (Note.authorId note) u then Ok (Some true)
               else match by_note_and_user N u db with
                    | [] => Ok None
                    | [s] => Ok (Some (Permission_eqb (Share.permission s) write))
                    | _ :: _ :: _ => Err NotUnique
                    end
           end
  end.
Proof.
  unfold access, getNote. run. unfold get_note.
  destruct (find_by Note._id N (notes db)) as [note|]; [|reflexivity].
  destruct (Note.isPublic note); [reflexivity|].
  destruct R as [u|]; [|reflexivity].
  destruct (Nat.eqb (Note.authorId note) u); [reflexivity|].
  unfold query_unique.
  destruct (by_note_and_user N u db) as [|s [|s' l]]; reflexivity.
Qed.

(** X18. Editing a note changes nobody's access unless its author changes
    its visibility.  After a successful [updateNote] that is made by
    someone other than the author, or that leaves [isPublic] out or gives
    its current value, every requester is granted on the note exactly
    what was granted before (nothing, or the note with the same
    [canEdit]), and [getNote] of every other note answers as before. *)
Theorem updateNote_access_frame (db : DB) (R : Id) (now : Z) (N : Id)
    (t c : option jsstring) (p : option bool) (note : Note.t) :
  get_note N db = Ok (Some note) ->
  fst (updateNote (Some R) now N t c p db) = Ok tt ->
  Note.authorId note <> R \/ p = None \/ p = Some (Note.isPublic note) ->
  let db' := snd (updateNote (Some R) now N t c p db) in
  (forall R', access R' N db' = access R' N db)
  /\ (forall R' N', N' <> N -> getNote R' N' db' = getNote R' N' db).
Proof.
  intros Hget Hok Hsame db'. unfold get_note in Hget. injection Hget as Hget.
  destruct (updateNote_run db R now N t c p Hget) as [u [Hu Hrun]].
  assert (Hdb' : db' = mkDB (users db)
                            (patch_by Note._id N (apply_updates u) (notes db))
                            (noteShares db) (nextId db)).
  { subst db'. rewrite Hrun in *. rewrite (@patch_note_run db N u note Hget) in *.
    destruct (Nat.eqb (Note.authorId note) R); [reflexivity|].
    destruct (by_note_and_user N R db) as [|s [|s' l]]; try discriminate.
    destruct (Permission_eqb (Share.permission s) write);
      [reflexivity | discriminate]. }
  assert (Hid : forall d, Note._id (apply_updates u d) = Note._id d)
    by reflexivity.
  rewrite Hdb'. clear Hrun Hdb' Hok. split.
  - intros R'. rewrite !access_run. unfold by_note_and_user. cbn [notes noteShares].
    rewrite (find_by_patch_by Note._id N N _ _ Hid), Nat.eqb_refl, Hget.
    cbn [option_map]. rewrite Hu.
    cbn [Note.isPublic Note.authorId].
    assert (Hpub : (if Nat.eqb (Note.authorId note) R
                    then nullish p (Note.isPublic note)
                    else Note.isPublic note) = Note.isPublic note).
    { destruct (Nat.eqb_spec (Note.authorId note) R) as [E|E]; [|reflexivity].
      destruct Hsame as [H|[->| ->]]; [contradiction | reflexivity | reflexivity]. }
    rewrite Hpub. reflexivity.
  - intros R' N' HN'. apply getNote_same_view; [|reflexivity|reflexivity].
    simpl. rewrite (find_by_patch_by Note._id N N' _ _ Hid).
    destruct (Nat.eqb_spec N N'); [congruence | reflexivity].
Qed.

Lemma updateNote_access_frame_witness :
  get_note 2 demo_db = Ok (Some demo_public_note)
  /\ fst (updateNote (Some 1) 7 2 (Some (str "x")) None (Some false) demo_db)
     = Ok tt
  /\ access None 2
       (snd (updateNote (Some 1) 7 2 (Some (str "x")) None (Some false) demo_db))
     = Ok (Some false).
Proof.
  assert (Hne : Note.authorId demo_public_note <> 1) by discriminate.
  assert (Hok : fst (updateNote (Some 1) 7 2 (Some (str "x")) None (Some false)
                       demo_db) = Ok tt) by (vm_compute; reflexivity).
  split; [reflexivity|]. split; [exact Hok|].
  destruct (@updateNote_access_frame demo_db 1 7 2 (Some (str "x")) None
              (Some false) demo_public_note eq_refl Hok (or_introl Hne))
    as [H _].
  exact (eq_trans (H None) eq_refl).
Defined.

(** ** Public matches come first in a search *)

Lemma dedup_first_prefix (l r : list Note.t) : forall seen,
  NoDup (map Note._id l) ->
  (forall n, In n l -> ~ In (Note._id n) seen) ->
  exists rest,
    dedup_first seen (l ++ r) = l ++ rest
    /\ forall n, In n rest -> In n r /\ ~ In (Note._id n) (map Note._id l).
Proof.
  induction l as [|x l IH]; intros seen Hnd Hseen.
  - exists (dedup_first seen r). split; [reflexivity|].
    intros n Hn. apply dedup_first_In in Hn. simpl. tauto.
  - simpl. inversion Hnd as [|? ? Hx Hnd']; subst.
    destruct (existsb (Nat.eqb (Note._id x)) seen) eqn:E.
    + exfalso. apply existsb_exists in E. destruct E as [i [Hi E]].
      apply Nat.eqb_eq in E. subst i. apply (Hseen x); [now left | exact Hi].
    + destruct (IH (Note._id x :: seen) Hnd') as [rest [Heq Hrest]].
      { intros n Hn [E'|Hin].
        - apply Hx. rewrite E'. now apply in_map.
        - apply (Hseen n); [now right | exact Hin]. }
      exists rest. split; [now rewrite Heq|].
      intros n Hn. destruct (Hrest n Hn) as [Hr Hl]. split; [exact Hr|].
      intros [E'|Hin]; [|contradiction].
      assert (Hd : In n (dedup_first (Note._id x :: seen) (l ++ r)))
        by (rewrite Heq; apply in_or_app; now right).
      apply dedup_first_In in Hd. destruct Hd as [_ Hd]. apply Hd.
      left. exact E'.
Qed.

Section SearchOrder.

Variable search_content : jsstring -> SearchFilter -> list Note.t -> list Note.t.

(** X20. In a search by a signed-in requester the public matches keep
    their places and the requester's own matches only fill what is left.
    When the index gives no note twice among the (at most ten) public
    matches, the notes of the result are those public matches, in the
    index's order, followed by own matches that are not among them, cut
    to ten; so when there are ten public matches the result is those ten
    and none of the requester's private notes is returned. *)
Theorem searchNotes_public_first (R : Id) (Q : jsstring) (db : DB) :
  forallb isTrimSpace Q = false ->
  NoDup (map Note._id (publicResults search_content Q db)) ->
  exists results rest,
    searchNotes search_content (Some R) Q db = Ok results
    /\ map NoteWithAuthor.note results =
       firstn 10 (publicResults search_content Q db ++ rest)
    /\ (forall n, In n rest ->
          In n (userResults search_content R Q db)
          /\ ~ In (Note._id n)
                  (map Note._id (publicResults search_content Q db)))
    /\ (List.length (publicResults search_content Q db) = 10 ->
        map NoteWithAuthor.note results = publicResults search_content Q db).
Proof.
  intros HQ Hnd.
  destruct (@dedup_first_prefix (publicResults search_content Q db)
              (userResults search_content R Q db) [] Hnd
              (fun _ _ H => H)) as [rest [Heq Hrest]].
  eexists. exists rest. split; [now apply searchNotes_signed_in|].
  rewrite Heq.
  assert (Hnotes : map NoteWithAuthor.note
                     (firstn 10 (map (search_label R db)
                                   (publicResults search_content Q db ++ rest)))
                   = firstn 10 (publicResults search_content Q db ++ rest)).
  { rewrite <- firstn_map, map_map. f_equal. apply map_id. }
  split; [exact Hnotes|]. split; [exact Hrest|].
  intros Hlen. rewrite Hnotes, firstn_app, <- Hlen, firstn_all.
  rewrite Nat.sub_diag. apply app_nil_r.
Qed.

End SearchOrder.

Lemma searchNotes_public_first_witness :
  forallb isTrimSpace (str "p") = false
  /\ NoDup (map Note._id (publicResults match_all (str "p") crowded_db))
  /\ List.length (publicResults match_all (str "p") crowded_db) = 10
  /\ In (Note.mk 12 (str "mine") [] false 1 None 2) (notes crowded_db)
  /\ exists results,
       searchNotes match_all (Some 1) (str "p") crowded_db = Ok results
       /\ map NoteWithAuthor.note results
          = publicResults match_all (str "p") crowded_db.
Proof.
  assert (Hnd : NoDup (map Note._id (publicResults match_all (str "p") crowded_db))).
  { vm_compute. repeat (constructor; [simpl; intuition discriminate|]).
    constructor. }
  destruct (@searchNotes_public_first match_all 1 (str "p") crowded_db
              eq_refl Hnd) as [results [rest [H1 [_ [_ H4]]]]].
  split; [reflexivity|]. split; [exact Hnd|]. split; [reflexivity|].
  split; [vm_compute; intuition|].
  exists results. split; [exact H1 | apply H4; reflexivity].
Defined.
